(** * Spark-Tool: student-to-project assignment as an integer program

    A shallow embedding of [assignment.py] (the base variant) and
    [external_assign.py] (the variant with discussion-section constraints),
    together with the properties the specification states about them.

    Both scripts build a Gurobi model, call [solver.optimize()] and read the
    solution back.  The solver is an external library: here it is a
    function from the constructed model to a status code, a value for every
    variable and an objective value, and every theorem quantifies over it. *)

From Stdlib Require Import ZArith QArith Lia Ascii DecimalString.
From stdpp Require Import base strings list gmap.

Local Open Scope Z_scope.

(** ** The input document (the JSON read from stdin) *)

(** Keys read with [d["k"]] are plain fields; keys read with [d.get("k")]
    are optional. *)
Record choice := {
  projectId : string;
  projectName : string;
  rank : Z
}.

Record student := {
  prefId : string;
  buid : string;
  studentName : string;
  choices : option (list choice);
  sectionId : option string;
  sectionIds : option (list string)
}.

Record options_doc := {
  minTeamSize : option Z;
  maxSectionsPerTeam : option Z
}.

Record document := {
  students : option (list student);
  capacities : option (gmap string Z);
  options : option options_doc
}.

(** ** The output document *)

Record assigned_entry := {
  a_prefId : string;
  a_buid : string;
  a_studentName : string;
  a_projectId : string;
  a_projectName : string;
  a_rank : Z
}.

Record unassigned_entry := {
  n_prefId : string;
  n_buid : string;
  n_studentName : string;
  n_reason : string
}.

Record output := {
  assigned : list assigned_entry;
  unassigned : list unassigned_entry;
  totalCost : option Q
}.

Inductive error :=
| ValueError (msg : string).

(** ** The optimisation model handed to the solver *)

(** The variable dictionaries [x], [u], [y], [w], [z] are keyed by tuples of
    identifiers; a variable is identified with its key. *)
Inductive var :=
| x_var (student_id project_id : string)
| u_var (student_id : string)
| y_var (project_id : string)
| w_var (student_id project_id sec : string)
| z_var (project_id sec : string).

#[global] Instance var_eq_dec : EqDecision var.
Proof. solve_decision. Defined.

Definition var_name (v : var) : string :=
  match v with
  | x_var s p => "x_" +:+ s +:+ "_" +:+ p
  | u_var s => "u_" +:+ s
  | y_var p => "y_" +:+ p
  | w_var s p sec => "w_" +:+ s +:+ "_" +:+ p +:+ "_" +:+ sec
  | z_var p sec => "z_" +:+ p +:+ "_" +:+ sec
  end.

(** Linear expressions: a list of (coefficient, variable) terms and a
    constant. *)
Record LinExpr := {
  le_terms : list (Z * var);
  le_const : Z
}.

Definition lin_var (v : var) : LinExpr := {| le_terms := [(1, v)]; le_const := 0 |}.
Definition lin_const (k : Z) : LinExpr := {| le_terms := []; le_const := k |}.
Definition lin_scale (k : Z) (e : LinExpr) : LinExpr :=
  {| le_terms := (λ t, (k * t.1, t.2)) <$> le_terms e; le_const := k * le_const e |}.
Definition lin_add (e1 e2 : LinExpr) : LinExpr :=
  {| le_terms := le_terms e1 ++ le_terms e2; le_const := le_const e1 + le_const e2 |}.
Definition lin_sub (e1 e2 : LinExpr) : LinExpr := lin_add e1 (lin_scale (-1) e2).

(** [gp.quicksum] of a generator of expressions. *)
Definition quicksum (es : list LinExpr) : LinExpr :=
  foldr (λ e acc, lin_add e acc) (lin_const 0) es.

Inductive sense := LessEqual | GreaterEqual | Equal.

Record Constr := {
  c_lhs : LinExpr;
  c_sense : sense;
  c_rhs : LinExpr;
  c_name : string
}.

#[global] Instance LinExpr_eq_dec : EqDecision LinExpr.
Proof. solve_decision. Defined.

#[global] Instance sense_eq_dec : EqDecision sense.
Proof. solve_decision. Defined.

#[global] Instance Constr_eq_dec : EqDecision Constr.
Proof. solve_decision. Defined.

(** Every variable is added with [vtype=GRB.BINARY]; the objective is
    always set with [GRB.MAXIMIZE]. *)
Record Model := {
  m_vars : list var;
  m_constrs : list Constr;
  m_objective : LinExpr
}.

(** What the script reads back after [solver.optimize()]. *)
Record Solution := {
  Status : Z;
  VarX : var → Q;
  ObjVal : Q
}.

(** gurobipy's status codes [GRB.OPTIMAL] and [GRB.SUBOPTIMAL]. *)
Module GRB.
Definition OPTIMAL : Z := 2.
Definition SUBOPTIMAL : Z := 13.
End GRB.

(** ** Semantics of a model *)

Definition sumZ (l : list Z) : Z := foldr Z.add 0 l.

Definition eval_terms (v : var → Z) (ts : list (Z * var)) : Z :=
  sumZ ((λ t, t.1 * v t.2) <$> ts).

Definition eval (v : var → Z) (e : LinExpr) : Z :=
  eval_terms v (le_terms e) + le_const e.

Definition holds (v : var → Z) (c : Constr) : Prop :=
  match c_sense c with
  | LessEqual => eval v (c_lhs c) ≤ eval v (c_rhs c)
  | GreaterEqual => eval v (c_rhs c) ≤ eval v (c_lhs c)
  | Equal => eval v (c_lhs c) = eval v (c_rhs c)
  end.

Definition binary (v : var → Z) (k : var) : Prop := v k = 0 ∨ v k = 1.

Definition feasible (m : Model) (v : var → Z) : Prop :=
  Forall (binary v) (m_vars m) ∧ Forall (holds v) (m_constrs m).

Definition objective_value (m : Model) (v : var → Z) : Z := eval v (m_objective m).

Definition optimal (m : Model) (v : var → Z) : Prop :=
  feasible m v ∧ ∀ v', feasible m v' → objective_value m v' ≤ objective_value m v.

#[global] Instance holds_dec v c : Decision (holds v c).
Proof. unfold holds. destruct (c_sense c); apply _. Defined.

#[global] Instance binary_dec v k : Decision (binary v k).
Proof. unfold binary. apply _. Defined.

#[global] Instance feasible_dec m v : Decision (feasible m v).
Proof. unfold feasible. apply _. Defined.

(** The script tests [var.X > 0.5]. *)
Definition gt_half (q : Q) : bool :=
  match Qlt_le_dec (1 # 2) q with left _ => true | right _ => false end.

(** The 0/1 point a solution is read as. *)
Definition rounded (r : Solution) : var → Z :=
  λ k, if gt_half (VarX r k) then 1 else 0.

Definition accepted (status : Z) : bool :=
  bool_decide (status = GRB.OPTIMAL ∨ status = GRB.SUBOPTIMAL).

(** A solver that honours the model: whenever it reports an accepted status,
    the values it returns are, up to the 0.5 threshold, a feasible point. *)
Definition sound_on (m : Model) (r : Solution) : Prop :=
  accepted (Status r) = true → feasible m (rounded r).

(** An optimal solve: the solver reports [GRB.OPTIMAL] and its values are a
    maximiser of the objective among the feasible points. *)
Definition optimal_solve (m : Model) (r : Solution) : Prop :=
  Status r = GRB.OPTIMAL ∧ optimal m (rounded r).

(** ** Input model builder (the same lines in both scripts) *)

Abbreviation choice_tuple := (string * string * Z)%type.

Definition student_ids (studs : list student) : list string := prefId <$> studs.

Definition choice_tuples (s : student) : list choice_tuple :=
  (λ c, (projectId c, projectName c, rank c)) <$> default [] (choices s).

Definition section_list (s : student) : list string :=
  (match sectionId s with Some sec => [sec] | None => [] end)
  ++ (match sectionIds s with Some l => l | None => [] end).

(** [student_choices[student_id] = choices] in roster order: a later student
    with the same [prefId] overwrites an earlier one. *)
Definition student_choices (studs : list student) : gmap string (list choice_tuple) :=
  foldl (λ d s, <[prefId s := choice_tuples s]> d) ∅ studs.

Definition student_sections (studs : list student) : gmap string (list string) :=
  foldl (λ d s, <[prefId s := section_list s]> d) ∅ studs.

(** [list(capacities.keys())]. *)
Definition projects (caps : gmap string Z) : list string := (map_to_list caps).*1.

(** [{sec for secs in student_sections.values() for sec in secs}]. *)
Definition sections (ss : gmap string (list string)) : gset string :=
  ⋃ ((λ kv, list_to_set kv.2) <$> map_to_list ss).

Definition proj_of (c : choice_tuple) : string := c.1.1.
Definition rank_of (c : choice_tuple) : Z := c.2.

(** ** Constraint model, base part (the same lines in both scripts) *)

Section Base_model.
Variable ids : list string.
Variable sc : gmap string (list choice_tuple).
Variable caps : gmap string Z.
Variable minimum_capacity : Z.

(** Keys of the dictionary [x], in insertion order.  Only membership
    [(student_id, project_id) in x] is ever asked of it. *)
Definition x_keys : list (string * string) :=
  sid ← ids; (λ c, (sid, proj_of c)) <$> (sc !!! sid).

Definition x_vars : list var := (λ k, x_var k.1 k.2) <$> x_keys.
Definition u_vars : list var := u_var <$> ids.
Definition y_vars : list var := y_var <$> projects caps.

(** [quicksum(x[(s, p)] for (p, _, _) in student_choices[s]) + u[s] == 1] *)
Definition assign_constr (sid : string) : Constr :=
  {| c_lhs := lin_add (quicksum ((λ c, lin_var (x_var sid (proj_of c))) <$> (sc !!! sid)))
                      (lin_var (u_var sid));
     c_sense := Equal;
     c_rhs := lin_const 1;
     c_name := "assign_" +:+ sid |}.

(** [quicksum(x[(s, p)] for s in student_ids if (s, p) in x)] *)
Definition project_load (p : string) : LinExpr :=
  quicksum ((λ sid, lin_var (x_var sid p))
              <$> filter (λ sid, (sid, p) ∈ x_keys) ids).

Definition max_capacity_constr (p : string) : Constr :=
  {| c_lhs := project_load p;
     c_sense := LessEqual;
     c_rhs := lin_scale (caps !!! p) (lin_var (y_var p));
     c_name := "max_capacity_" +:+ p |}.

(** [if minimum_capacity >= capacities[p]: min_capacity = 0
     else: min_capacity = minimum_capacity] *)
Definition min_capacity (capacity : Z) : Z :=
  if minimum_capacity >=? capacity then 0 else minimum_capacity.

Definition min_capacity_constr (p : string) : Constr :=
  {| c_lhs := project_load p;
     c_sense := GreaterEqual;
     c_rhs := lin_scale (min_capacity (caps !!! p)) (lin_var (y_var p));
     c_name := "min_capacity_" +:+ p |}.

Definition base_constrs : list Constr :=
  (assign_constr <$> ids)
  ++ (p ← projects caps; [max_capacity_constr p; min_capacity_constr p]).

(** [x[(s, p)] * (len(student_choices[s]) - rank + 1)], summed over the
    students and their choices. *)
Definition preference_score : LinExpr :=
  quicksum (sid ← ids;
            (λ c, lin_scale (Z.of_nat (length (sc !!! sid)) - rank_of c + 1)
                            (lin_var (x_var sid (proj_of c))))
              <$> (sc !!! sid)).

(** [max(len(student_choices[s]) for s in student_ids)]; Python's [max]
    raises on an empty sequence. *)
Definition max_weight : option Z :=
  match (λ sid, Z.of_nat (length (sc !!! sid))) <$> ids with
  | [] => None
  | n :: ns => Some (foldl Z.max n ns)
  end.

Definition unassigned_penalty (mw : Z) : Z := Z.of_nat (length ids) * mw + 1.

Definition penalty (mw : Z) : LinExpr :=
  quicksum ((λ s, lin_scale (unassigned_penalty mw) (lin_var (u_var s))) <$> ids).

Definition objective (mw : Z) : LinExpr := lin_sub preference_score (penalty mw).
End Base_model.

(** ** Constraint model, section extension ([external_assign.py] only) *)

Section Section_model.
Variable ids : list string.
Variable sc : gmap string (list choice_tuple).
Variable ss : gmap string (list string).
Variable caps : gmap string Z.
Variable max_sections_per_team : Z.

Definition w_keys : list (string * string * string) :=
  sid ← ids; c ← sc !!! sid; sec ← ss !!! sid; [(sid, proj_of c, sec)].

Definition z_keys : list (string * string) :=
  p ← projects caps; sec ← elements (sections ss); [(p, sec)].

Definition w_vars : list var := (λ k, w_var k.1.1 k.1.2 k.2) <$> w_keys.
Definition z_vars : list var := (λ k, z_var k.1 k.2) <$> z_keys.

(** [quicksum(w[(s, p, sec)] for sec in secs) == x[(s, p)]] *)
Definition link_x_w_constr (sid p : string) : Constr :=
  {| c_lhs := quicksum ((λ sec, lin_var (w_var sid p sec)) <$> (ss !!! sid));
     c_sense := Equal;
     c_rhs := lin_var (x_var sid p);
     c_name := "link_x_w_" +:+ sid +:+ "_" +:+ p |}.

Definition students_in_sec_and_want_project (p sec : string) : list string :=
  filter (λ sid, (sid, p, sec) ∈ w_keys) ids.

Definition no_students_z_constr (p sec : string) : Constr :=
  {| c_lhs := lin_var (z_var p sec);
     c_sense := Equal;
     c_rhs := lin_const 0;
     c_name := "no_students_z_" +:+ p +:+ "_" +:+ sec |}.

Definition link_z_constr (p sec : string) : Constr :=
  {| c_lhs := quicksum ((λ sid, lin_var (w_var sid p sec))
                          <$> students_in_sec_and_want_project p sec);
     c_sense := LessEqual;
     c_rhs := lin_scale (caps !!! p) (lin_var (z_var p sec));
     c_name := "link_z_" +:+ p +:+ "_" +:+ sec |}.

Definition z_y_constr (p sec : string) : Constr :=
  {| c_lhs := lin_var (z_var p sec);
     c_sense := LessEqual;
     c_rhs := lin_var (y_var p);
     c_name := "z_y_" +:+ p +:+ "_" +:+ sec |}.

Definition max_sections_constr (p : string) : Constr :=
  {| c_lhs := quicksum ((λ sec, lin_var (z_var p sec)) <$> elements (sections ss));
     c_sense := LessEqual;
     c_rhs := lin_scale max_sections_per_team (lin_var (y_var p));
     c_name := "max_sections_" +:+ p |}.

Definition section_constrs : list Constr :=
  (sid ← ids; (λ c, link_x_w_constr sid (proj_of c)) <$> (sc !!! sid))
  ++ (p ← projects caps; sec ← elements (sections ss);
      match students_in_sec_and_want_project p sec with
      | [] => [no_students_z_constr p sec]
      | _ :: _ => [link_z_constr p sec; z_y_constr p sec]
      end)
  ++ (max_sections_constr <$> projects caps).
End Section_model.

(** ** Solve orchestration and result extraction (shared lines) *)

(** [f"... (status {solver.Status})"]: the status code in decimal. *)
Definition str_of_Z (n : Z) : string := NilZero.string_of_int (Z.to_int n).

Definition status_reason (status : Z) : string :=
  "ILP infeasible or no solution (status " +:+ str_of_Z status +:+ ")".

Definition no_solution_entry (status : Z) (s : student) : unassigned_entry :=
  {| n_prefId := prefId s; n_buid := buid s; n_studentName := studentName s;
     n_reason := status_reason status |}.

Definition no_solution (status : Z) (studs : list student) : output :=
  {| assigned := []; unassigned := no_solution_entry status <$> studs; totalCost := None |}.

Definition no_capacity_reason : string := "No available capacity for ranked choices".

(** One pass of the extraction loop for one student.  [inconsistent] is the
    reason string of the last branch, the only place where the two scripts
    differ in this loop. *)
Definition extract_student (inconsistent : string)
    (sc : gmap string (list choice_tuple)) (r : Solution) (s : student)
    : assigned_entry + unassigned_entry :=
  let student_id := prefId s in
  match List.find (λ c, gt_half (VarX r (x_var student_id (proj_of c)))) (sc !!! student_id) with
  | Some (p_id, proj_name, rk) =>
      inl {| a_prefId := prefId s; a_buid := buid s; a_studentName := studentName s;
             a_projectId := p_id; a_projectName := proj_name; a_rank := rk |}
  | None =>
      if gt_half (VarX r (u_var student_id)) then
        inr {| n_prefId := prefId s; n_buid := buid s; n_studentName := studentName s;
               n_reason := no_capacity_reason |}
      else
        inr {| n_prefId := prefId s; n_buid := buid s; n_studentName := studentName s;
               n_reason := inconsistent |}
  end.

Definition append_entry (out : output) (e : assigned_entry + unassigned_entry) : output :=
  match e with
  | inl a => {| assigned := assigned out ++ [a]; unassigned := unassigned out;
                totalCost := totalCost out |}
  | inr n => {| assigned := assigned out; unassigned := unassigned out ++ [n];
                totalCost := totalCost out |}
  end.

Definition extract (inconsistent : string) (sc : gmap string (list choice_tuple))
    (r : Solution) (studs : list student) : output :=
  foldl (λ out s, append_entry out (extract_student inconsistent sc r s))
        {| assigned := []; unassigned := []; totalCost := Some (ObjVal r) |} studs.

Definition missing_keys : error :=
  ValueError "Input data doesn't have all information needed.".

Definition empty_max : error := ValueError "max() arg is an empty sequence".

(** ** [assignment.py] *)

Module assignment.

Definition inconsistent_reason : string :=
  "Inconsistent assignment. Not assigned but not explicitly marked unassigned.".

Definition build_model (studs : list student) (caps : gmap string Z)
    (opts : options_doc) : error + Model :=
  let minimum_capacity := default 0 (minTeamSize opts) in
  let ids := student_ids studs in
  let sc := student_choices studs in
  match max_weight ids sc with
  | None => inl empty_max
  | Some mw =>
      inr {| m_vars := x_vars ids sc ++ u_vars ids ++ y_vars caps;
             m_constrs := base_constrs ids sc caps minimum_capacity;
             m_objective := objective ids sc mw |}
  end.

Definition assign (solve : Model → Solution) (data : document) : error + output :=
  match students data, capacities data, options data with
  | Some studs, Some caps, Some opts =>
      match build_model studs caps opts with
      | inl e => inl e
      | inr m =>
          let r := solve m in
          if accepted (Status r) then
            inr (extract inconsistent_reason (student_choices studs) r studs)
          else inr (no_solution (Status r) studs)
      end
  | _, _, _ => inl missing_keys
  end.

End assignment.

(** ** [external_assign.py] *)

Module external_assign.

Definition inconsistent_reason : string :=
  "Inconsistent assignment. Not assigned to a project but not explicitly marked unassigned.".

Definition build_model (studs : list student) (caps : gmap string Z)
    (opts : options_doc) : error + Model :=
  let minimum_capacity := default 0 (minTeamSize opts) in
  let max_sections_per_team := default 1 (maxSectionsPerTeam opts) in
  let ids := student_ids studs in
  let sc := student_choices studs in
  let ss := student_sections studs in
  let with_sections := negb (bool_decide (elements (sections ss) = [])) in
  match max_weight ids sc with
  | None => inl empty_max
  | Some mw =>
      inr {| m_vars := x_vars ids sc ++ u_vars ids ++ y_vars caps
                       ++ (if with_sections
                           then w_vars ids sc ss ++ z_vars ss caps else []);
             m_constrs := base_constrs ids sc caps minimum_capacity
                          ++ (if with_sections
                              then section_constrs ids sc ss caps max_sections_per_team
                              else []);
             m_objective := objective ids sc mw |}
  end.

Definition assign (solve : Model → Solution) (data : document) : error + output :=
  match students data, capacities data, options data with
  | Some studs, Some caps, Some opts =>
      match build_model studs caps opts with
      | inl e => inl e
      | inr m =>
          let r := solve m in
          if accepted (Status r) then
            inr (extract inconsistent_reason (student_choices studs) r studs)
          else inr (no_solution (Status r) studs)
      end
  | _, _, _ => inl missing_keys
  end.

End external_assign.

(** ** Measures used in the statements *)

(** How often an identifier occurs in a list of identifiers. *)
Definition count_id (pid : string) (l : list string) : nat :=
  length (filter (λ i, i = pid) l).

(** The student behind [pid] is in exactly one of the two output lists, once. *)
Definition in_exactly_one (out : output) (pid : string) : Prop :=
  (count_id pid (a_prefId <$> assigned out) = 1%nat
   ∧ count_id pid (n_prefId <$> unassigned out) = 0%nat)
  ∨ (count_id pid (a_prefId <$> assigned out) = 0%nat
     ∧ count_id pid (n_prefId <$> unassigned out) = 1%nat).

(** The two halves of one pass of the extraction loop. *)
Definition keep_assigned (e : assigned_entry + unassigned_entry) : option assigned_entry :=
  match e with inl a => Some a | inr _ => None end.

Definition keep_unassigned (e : assigned_entry + unassigned_entry) : option unassigned_entry :=
  match e with inl _ => None | inr n => Some n end.


(** Every identifier occurs in the two output lists together as often as in
    the roster. *)
Definition accounts_for (out : output) (studs : list student) : Prop :=
  ∀ pid, (count_id pid (a_prefId <$> assigned out)
          + count_id pid (n_prefId <$> unassigned out))%nat
         = count_id pid (student_ids studs).

(** ** Concrete documents and solver answers used as test inputs *)

Module Examples.

Definition mk_choice (p : string) (r : Z) : choice :=
  {| projectId := p; projectName := "Project " +:+ p; rank := r |}.

Definition mk_student (i name : string) (cs : list choice) : student :=
  {| prefId := i; buid := "U" +:+ i; studentName := name;
     choices := Some cs; sectionId := None; sectionIds := None |}.

Definition no_options : options_doc :=
  {| minTeamSize := None; maxSectionsPerTeam := None |}.

(** Scenario A: two students, one project of capacity 1, both rank it first. *)
Definition ada : student := mk_student "s1" "Ada" [mk_choice "p" 1].
Definition bob : student := mk_student "s2" "Bob" [mk_choice "p" 1].

Definition scenario_A : document :=
  {| students := Some [ada; bob];
     capacities := Some {[ "p" := 1 ]};
     options := Some no_options |}.

(** A solver answer for scenario A: Ada gets the seat. *)
Definition ada_wins (_ : Model) : Solution :=
  {| Status := GRB.OPTIMAL;
     VarX := λ k, match k with
                  | x_var "s1" "p" | u_var "s2" | y_var "p" => 1%Q
                  | _ => 0%Q
                  end;
     ObjVal := (-2)%Q |}.

(** A solver that gives up with [GRB.INFEASIBLE] (status 3). *)
Definition gives_up (_ : Model) : Solution :=
  {| Status := 3; VarX := λ _, 0%Q; ObjVal := 0%Q |}.

(** One project whose capacity equals [minTeamSize]. *)
Definition team_of_four : options_doc :=
  {| minTeamSize := Some 4; maxSectionsPerTeam := None |}.

Definition full_team_caps : gmap string Z := {[ "p" := 4 ]}.

(** The minimum-occupancy constraint of project ["p"] for roster [[ada]]
    with right-hand side [k * y_p]. *)
Definition floor_constr (k : Z) : Constr :=
  {| c_lhs := lin_var (x_var "s1" "p");
     c_sense := GreaterEqual;
     c_rhs := lin_scale k (lin_var (y_var "p"));
     c_name := "min_capacity_p" |}.

(** A well-formed document with an empty roster. *)
Definition empty_roster : document :=
  {| students := Some []; capacities := Some ∅; options := Some no_options |}.

End Examples.

(** ** More measures used in the statements *)

(** The number of roster entries whose student holds a seat of project [p]
    in the 0/1 point [v]. *)
Definition students_on (v : var → Z) (ids : list string)
    (sc : gmap string (list choice_tuple)) (p : string) : nat :=
  length (filter (λ sid, (sid, p) ∈ x_keys ids sc ∧ v (x_var sid p) = 1) ids).

(** The number of [assigned] entries of an output document that name
    project [p]. *)
Definition placed_on (out : output) (p : string) : nat :=
  length (filter (λ a, a_projectId a = p) (assigned out)).

(** The part of feasibility that both scripts share. *)
Definition base_feasible (ids : list string) (sc : gmap string (list choice_tuple))
    (caps : gmap string Z) (minimum_capacity : Z) (v : var → Z) : Prop :=
  Forall (binary v) (x_vars ids sc ++ u_vars ids ++ y_vars caps)
  ∧ Forall (holds v) (base_constrs ids sc caps minimum_capacity).

(** A student holds a seat in the 0/1 point [v] when one of the [x]
    variables of their choices is 1. *)
Definition is_assigned (sc : gmap string (list choice_tuple)) (v : var → Z)
    (sid : string) : Prop :=
  Exists (λ c, v (x_var sid (proj_of c)) = 1) (sc !!! sid).

#[global] Instance is_assigned_dec sc v sid : Decision (is_assigned sc v sid).
Proof. unfold is_assigned. apply _. Defined.

(** The number of roster entries whose student holds a seat in [v]. *)
Definition assigned_count (ids : list string) (sc : gmap string (list choice_tuple))
    (v : var → Z) : nat :=
  length (filter (is_assigned sc v) ids).

(** The number of choices the script has on record for a student:
    [len(student_choices[s["prefId"]])]. *)
Definition choice_count (studs : list student) (s : student) : Z :=
  Z.of_nat (length (student_choices studs !!! prefId s)).

(** Every rank lies between 1 and the length of the list it occurs in. *)
Definition ranks_in_range (studs : list student) : Prop :=
  Forall (λ s, Forall (λ c, 1 ≤ rank c ≤ Z.of_nat (length (default [] (choices s))))
                      (default [] (choices s))) studs.

#[global] Instance ranks_in_range_dec studs : Decision (ranks_in_range studs).
Proof. unfold ranks_in_range. apply _. Defined.

Module More_examples.
(** Nobody holds a seat, every student is marked unassigned. *)
Definition nobody : var → Z :=
  λ k, match k with u_var _ => 1 | _ => 0 end.
End More_examples.

(** The number of distinct sections via which some student is placed on
    project [p] in the 0/1 point [v]. *)
Definition sections_drawn (v : var → Z) (ids : list string)
    (sc : gmap string (list choice_tuple)) (ss : gmap string (list string))
    (p : string) : nat :=
  length (filter (λ sec, Exists (λ sid, (sid, p, sec) ∈ w_keys ids sc ss
                                        ∧ v (w_var sid p sec) = 1) ids)
                 (elements (sections ss))).

Module Section_examples.
Import Examples.

(** Scenario C in small: two students of different sections rank the same
    project of capacity 2, and a team may draw from one section only. *)
Definition cy : student :=
  {| prefId := "s1"; buid := "U1"; studentName := "Cy";
     choices := Some [mk_choice "p" 1]; sectionId := Some "A1"; sectionIds := Some [] |}.
Definition dee : student :=
  {| prefId := "s2"; buid := "U2"; studentName := "Dee";
     choices := Some [mk_choice "p" 1]; sectionId := Some "B1"; sectionIds := None |}.

Definition one_section : options_doc :=
  {| minTeamSize := Some 0; maxSectionsPerTeam := None |}.

(** Cy is placed on ["p"] via section ["A1"]; Dee is unassigned. *)
Definition cy_via_A1 : var → Z :=
  λ k, match k with
       | x_var "s1" "p" | w_var "s1" "p" "A1" | z_var "p" "A1" | y_var "p" | u_var "s2" => 1
       | _ => 0
       end.
End Section_examples.

Module Monotonicity_examples.
Import Examples.

(** One student ranking ["p"], [minTeamSize = 4]; the capacity of ["p"]
    is raised from 1 to 5. *)
Definition small_caps : gmap string Z := {[ "p" := 1 ]}.
Definition raised_caps : gmap string Z := <[ "p" := 5 ]> small_caps.

(** Ada holds the seat. *)
Definition ada_seated : var → Z :=
  λ k, match k with x_var "s1" "p" | y_var "p" => 1 | _ => 0 end.

(** A roster where the floor is below both capacities. *)
Definition low_floor : options_doc :=
  {| minTeamSize := Some 1; maxSectionsPerTeam := None |}.
Definition two_seats : gmap string Z := {[ "p" := 2 ]}.
End Monotonicity_examples.

(** No student declares a primary or an additional section. *)
Definition sectionless (studs : list student) : Prop :=
  Forall (λ s, sectionId s = None ∧ default [] (sectionIds s) = []) studs.

#[global] Instance sectionless_dec studs : Decision (sectionless studs).
Proof. unfold sectionless. apply _. Defined.

Module Unsound_examples.
(** A solver answer that claims optimality but leaves every variable at 0,
    which violates the exactly-one constraints. *)
Definition all_zero (_ : Model) : Solution :=
  {| Status := GRB.OPTIMAL; VarX := λ _, 0%Q; ObjVal := 0%Q |}.
End Unsound_examples.

(** ** Scenario A in general *)

Module Scenario_A.

(** The student's only choice is project [p], at rank 1. *)
Definition single_choice (s : student) (p name : string) : Prop :=
  choices s = Some [{| projectId := p; projectName := name; rank := 1 |}].

(** The document returned when [winner] gets the seat of [p]. *)
Definition outcome (winner : student) (p name : string) (loser : student)
    (loser_reason : string) (cost : Q) : output :=
  {| assigned := [{| a_prefId := prefId winner; a_buid := buid winner;
                     a_studentName := studentName winner;
                     a_projectId := p; a_projectName := name; a_rank := 1 |}];
     unassigned := [{| n_prefId := prefId loser; n_buid := buid loser;
                       n_studentName := studentName loser;
                       n_reason := loser_reason |}];
     totalCost := Some cost |}.

(** The feasible point in which the student [id1] holds the seat. *)
Definition seat_to (id1 id2 p : string) : var → Z :=
  λ k, if decide (k = x_var id1 p ∨ k = u_var id2 ∨ k = y_var p) then 1 else 0.

End Scenario_A.

(** ** Tactics for concrete models *)

(** Splits a [Forall] over an explicit list into its components. *)
Ltac split_Forall :=
  repeat match goal with
         | H : Forall _ (_ :: _) |- _ => apply Forall_cons in H as [? H]
         | H : Forall _ [] |- _ => clear H
         end.

(** Unfolds the semantics of explicit constraints down to integer
    arithmetic over the values of the variables. *)
Ltac unfold_semantics :=
  cbv [holds binary eval eval_terms sumZ fmap list_fmap foldr objective_value
       c_lhs c_rhs c_sense le_terms le_const fst snd m_vars m_constrs m_objective] in *.

(** Evaluates the 0/1 reading of a concrete solver answer. *)
Ltac eval_rounded :=
  repeat match goal with
         | |- context [rounded ?r ?k] =>
             let e := eval vm_compute in (rounded r k) in
             change (rounded r k) with e
         end.

(** ** Further points and measures *)

(** Every student holds a seat of project [q]; no project is marked used. *)
Definition everyone_on (q : string) : var → Z :=
  λ k, match k with
       | x_var _ p => if decide (p = q) then 1 else 0
       | _ => 0
       end.

(** How often project [q] occurs in a list of choices. *)
Definition times_chosen (q : string) (cs : list choice_tuple) : nat :=
  length (filter (λ c, proj_of c = q) cs).

(** How often section [sec] occurs in a flattened section list. *)
Definition times_listed (sec : string) (secs : list string) : nat :=
  length (filter (λ s, s = sec) secs).

Module Edge_examples.
Import Examples.

(** A student who lists project ["p"] twice. *)
Definition fan : student := mk_student "s1" "Fan" [mk_choice "p" 1; mk_choice "p" 2].

(** A student whose primary section is repeated among the additional ones. *)
Definition gus : student :=
  {| prefId := "s1"; buid := "U1"; studentName := "Gus";
     choices := Some [mk_choice "p" 1];
     sectionId := Some "A1"; sectionIds := Some ["A1"] |}.

(** Capacities that do not list project ["p"]. *)
Definition other_caps : gmap string Z := {[ "q" := 0 ]}.

End Edge_examples.

(** * [check_assignments.py] *)

Module check_assignments.

(** An entry of the document's ["assigned"] list: only [s.get("rank")] is
    read, which is [None] when the key is absent or null. *)
Record stat_entry := { e_rank : option Z }.

(** The document read from stdin; both keys are read with [data.get(k, [])].
    Of the ["unassigned"] list only the length is used. *)
Record report_doc := {
  d_assigned : option (list stat_entry);
  d_unassigned : option (list unassigned_entry)
}.

(** [None <= 3] raises. *)
Inductive stats_error :=
| TypeError (msg : string).

Definition none_le_int : stats_error :=
  TypeError "'<=' not supported between instances of 'NoneType' and 'int'".

(** What the script prints: either the single line "No assigned students
    found.", or the four counts.  The two percentages of the summary are
    [got_first / total_assigned * 100] and [got_top3 / total_assigned * 100]
    formatted as floats with one decimal; they are not part of this record. *)
Inductive printed :=
| No_assigned_students_found
| Summary (total_assigned got_first got_top3 total_unassigned : nat).

(** The loop [for s in students], threading the two counters. *)
Fixpoint count_ranks (students : list stat_entry) (got_first got_top3 : nat)
    : stats_error + (nat * nat) :=
  match students with
  | [] => inr (got_first, got_top3)
  | s :: rest =>
      let rank_of_assigned := e_rank s in
      let got_first :=
        if decide (rank_of_assigned = Some 1) then S got_first else got_first in
      match rank_of_assigned with
      | None => inl none_le_int
      | Some r =>
          count_ranks rest got_first (if r <=? 3 then S got_top3 else got_top3)
      end
  end.

Definition main (data : report_doc) : stats_error + printed :=
  let students := default [] (d_assigned data) in
  let total_assigned := length students in
  let total_unassigned := length (default [] (d_unassigned data)) in
  match count_ranks students 0 0 with
  | inl e => inl e
  | inr (got_first, got_top3) =>
      if decide (total_assigned = 0%nat) then inr No_assigned_students_found
      else inr (Summary total_assigned got_first got_top3 total_unassigned)
  end.

(** The document [json.dump] writes for an [output] and [json.load] reads
    back: every assigned entry has an integer ["rank"]. *)
Definition as_report (out : output) : report_doc :=
  {| d_assigned := Some ((λ a, {| e_rank := Some (a_rank a) |}) <$> assigned out);
     d_unassigned := Some (unassigned out) |}.

(** The entries the two counters count. *)
Definition is_first (s : stat_entry) : Prop := e_rank s = Some 1.

Definition is_top3 (s : stat_entry) : Prop :=
  match e_rank s with Some r => r ≤ 3 | None => False end.

#[global] Instance is_top3_dec s : Decision (is_top3 s).
Proof. unfold is_top3. destruct (e_rank s); apply _. Defined.

End check_assignments.

(** * [CSV_to_JSON.py] *)

Module CSV_to_JSON.

Definition TEAM_SIZE_TARGET : Z := 8.
Definition MIN_TEAM_SIZE : Z := 4.
Definition MAX_SECTIONS_PER_TEAM : Z := 2.
Definition SWAP_PASSES : Z := 2.
Definition DEFAULT_PROJECT_CAPACITY : Z := 24.

Definition CHOICE_COLUMNS : list string :=
  [ "1st Choice Project"; "2nd Choice Project"; "3rd Choice Project";
    "4th Choice Project"; "5th Choice Project" ].

(** A cell of the data frame: pandas reads an empty CSV field as the float
    NaN; any other cell is kept as the text [str(value)] of its value. *)
Inductive value :=
| NaN
| Text (s : string).

(** A row of the frame.  [Course] and [Semester] are compared with [==]
    ([None] is NaN, equal to nothing); [BUID] and [Full_Name] are read with
    [row["..."]] and copied as they are; every other column is read with
    [row.get(column, default)], so the cells are a map from column names in
    which a column may be missing. *)
Record row := {
  Course : option string;
  Semester : option string;
  BUID : string;
  Full_Name : string;
  cells : gmap string value
}.

(** The object [build_json_for_course] returns; [options] is a dictionary
    with four integer entries. *)
Record course_json := {
  j_students : list student;
  j_capacities : gmap string Z;
  j_options : gmap string Z
}.

(** [s.split(",")]. *)
Fixpoint split_comma (s : string) : list string :=
  match s with
  | EmptyString => [EmptyString]
  | String c rest =>
      if Ascii.eqb c ","%char then EmptyString :: split_comma rest
      else match split_comma rest with
           | [] => [String c EmptyString]
           | piece :: pieces => String c piece :: pieces
           end
  end.

Section With_strip.
(** Python's [str.strip], which removes leading and trailing whitespace.
    The properties below hold whatever it does to a string. *)
Variable strip : string → string.

(** [row.get("Discussion Section", None)], with NaN turned into [None]. *)
Definition primary_section (r : row) : option string :=
  match cells r !! "Discussion Section" with
  | Some (Text s) => Some s
  | Some NaN | None => None
  end.

(** [row.get("Additional Discussion Section Availability", "")], with NaN
    turned into the empty string. *)
Definition additional_raw (r : row) : string :=
  match cells r !! "Additional Discussion Section Availability" with
  | Some (Text s) => s
  | Some NaN | None => EmptyString
  end.

(** [[s.strip() for s in str(additional_raw).split(",") if s.strip()]] *)
Definition additional_sections (r : row) : list string :=
  strip <$> filter (λ s, strip s ≠ EmptyString) (split_comma (additional_raw r)).

(** One pass of the loop over [enumerate(CHOICE_COLUMNS, start=1)]: the
    choice the column contributes, if any.  A column missing from the frame
    gives [str(None)], the text "None". *)
Definition choice_of_column (r : row) (rank : Z) (col : string) : option choice :=
  match cells r !! col with
  | Some NaN => None
  | other =>
      let proj := strip (match other with Some (Text s) => s | _ => "None" end) in
      if decide (proj = EmptyString) then None
      else Some {| projectId := proj; projectName := proj; rank := rank |}
  end.

Definition choices_of_row (r : row) : list choice :=
  omap (λ '(i, col), choice_of_column r (1 + Z.of_nat i) col) (imap pair CHOICE_COLUMNS).

Definition student_of_row (r : row) : student :=
  {| prefId := BUID r; buid := BUID r; studentName := Full_Name r;
     choices := Some (choices_of_row r);
     sectionId := primary_section r;
     sectionIds := Some (additional_sections r) |}.

(** [df[(df["Course"] == course) & (df["Semester"] == semester)]] *)
Definition sub_frame (df : list row) (course semester : string) : list row :=
  filter (λ r, Course r = Some course ∧ Semester r = Some semester) df.

(** The set [projects] the loop collects. *)
Definition projects_of (rows : list row) : gset string :=
  list_to_set (r ← rows; projectId <$> choices_of_row r).

Definition build_json_for_course (df : list row) (course semester : string) : course_json :=
  let sub := sub_frame df course semester in
  {| j_students := student_of_row <$> sub;
     j_capacities := gset_to_gmap DEFAULT_PROJECT_CAPACITY (projects_of sub);
     j_options := {[ "teamSizeTarget" := TEAM_SIZE_TARGET;
                     "minTeamSize" := MIN_TEAM_SIZE;
                     "maxSectionsPerTeam" := MAX_SECTIONS_PER_TEAM;
                     "swapPasses" := SWAP_PASSES ]} |}.
End With_strip.

(** The input document the assignment scripts get when they load the JSON
    file written for a course: of [options] they read two keys with
    [options.get]. *)
Definition as_document (j : course_json) : document :=
  {| students := Some (j_students j);
     capacities := Some (j_capacities j);
     options := Some {| minTeamSize := j_options j !! "minTeamSize";
                        maxSectionsPerTeam := j_options j !! "maxSectionsPerTeam" |} |}.

(** A stand-in for [str.strip] on ASCII text, used in the examples: it drops
    leading and trailing blanks. *)
Fixpoint lstrip_blank (s : string) : string :=
  match s with
  | String " "%char rest => lstrip_blank rest
  | _ => s
  end.

Fixpoint rstrip_blank (s : string) : string :=
  match s with
  | EmptyString => EmptyString
  | String c rest =>
      match c, rstrip_blank rest with
      | " "%char, EmptyString => EmptyString
      | _, rest' => String c rest'
      end
  end.

Definition strip_blank (s : string) : string := rstrip_blank (lstrip_blank s).

(** A frame of two rows of one course; Hal leaves the first column empty. *)
Definition hal : row :=
  {| Course := Some "EC463"; Semester := Some "Fall 2025";
     BUID := "U11"; Full_Name := "Hal";
     cells := {[ "1st Choice Project" := NaN;
                 "2nd Choice Project" := Text " Robot ";
                 "3rd Choice Project" := Text "Drone";
                 "4th Choice Project" := NaN;
                 "5th Choice Project" := NaN;
                 "Discussion Section" := Text "A1";
                 "Additional Discussion Section Availability" := Text "A2, ,A3" ]} |}.

Definition ivy : row :=
  {| Course := Some "EC463"; Semester := Some "Fall 2025";
     BUID := "U12"; Full_Name := "Ivy";
     cells := {[ "1st Choice Project" := Text "Drone";
                 "2nd Choice Project" := NaN;
                 "3rd Choice Project" := NaN;
                 "4th Choice Project" := NaN;
                 "5th Choice Project" := NaN;
                 "Discussion Section" := NaN ]} |}.

Definition frame : list row := [hal; ivy].

End CSV_to_JSON.
(** * Properties *)

(** ** Linear expressions *)

Lemma sumZ_app l1 l2 : sumZ (l1 ++ l2) = sumZ l1 + sumZ l2.
Proof. induction l1 as [|a l1 IH]; simpl; [done | rewrite IH; lia]. Qed.

Lemma eval_terms_app v t1 t2 :
  eval_terms v (t1 ++ t2) = eval_terms v t1 + eval_terms v t2.
Proof. unfold eval_terms. by rewrite fmap_app, sumZ_app. Qed.

Lemma eval_lin_var v k : eval v (lin_var k) = v k.
Proof. unfold eval, eval_terms; simpl. lia. Qed.

Lemma eval_lin_const v k : eval v (lin_const k) = k.
Proof. reflexivity. Qed.

Lemma eval_lin_add v e1 e2 : eval v (lin_add e1 e2) = eval v e1 + eval v e2.
Proof. unfold eval; simpl. rewrite eval_terms_app. lia. Qed.

Lemma eval_lin_scale v k e : eval v (lin_scale k e) = k * eval v e.
Proof.
  unfold eval; simpl. destruct e as [ts c]; simpl.
  assert (eval_terms v ((λ t, (k * t.1, t.2)) <$> ts) = k * eval_terms v ts) as E.
  { unfold eval_terms. induction ts as [|t ts IH]; [simpl; lia|].
    rewrite !fmap_cons. unfold sumZ in *. rewrite !foldr_cons, IH. simpl. lia. }
  rewrite E. lia.
Qed.

Lemma eval_lin_sub v e1 e2 : eval v (lin_sub e1 e2) = eval v e1 - eval v e2.
Proof. unfold lin_sub. rewrite eval_lin_add, eval_lin_scale. lia. Qed.

Lemma eval_quicksum v es : eval v (quicksum es) = sumZ (eval v <$> es).
Proof.
  induction es as [|e es IH]; [done|].
  change (quicksum (e :: es)) with (lin_add e (quicksum es)).
  rewrite eval_lin_add, IH. done.
Qed.

Lemma eval_quicksum_fmap {A} v (f : A → LinExpr) (l : list A) :
  eval v (quicksum (f <$> l)) = sumZ ((λ a, eval v (f a)) <$> l).
Proof. rewrite eval_quicksum. by rewrite <- list_fmap_compose. Qed.

Lemma eval_quicksum_bind {A} v (f : A → list LinExpr) (l : list A) :
  eval v (quicksum (l ≫= f)) = sumZ ((λ a, eval v (quicksum (f a))) <$> l).
Proof.
  rewrite eval_quicksum.
  induction l as [|a l IH]; [done|].
  rewrite bind_cons, fmap_app, sumZ_app, IH, fmap_cons. simpl. by rewrite eval_quicksum.
Qed.

Lemma sumZ_cons_fmap {A} (f : A → Z) a l : sumZ (f <$> a :: l) = f a + sumZ (f <$> l).
Proof. reflexivity. Qed.

Lemma sumZ_le {A} (f g : A → Z) (l : list A) :
  (∀ a, a ∈ l → f a ≤ g a) → sumZ (f <$> l) ≤ sumZ (g <$> l).
Proof.
  induction l as [|a l IH]; intros H; [done|].
  rewrite !sumZ_cons_fmap.
  pose proof (H a (list_elem_of_here _ _)).
  assert (sumZ (f <$> l) ≤ sumZ (g <$> l)).
  { apply IH. intros b Hb. apply H. by apply list_elem_of_further. }
  lia.
Qed.

Lemma sumZ_eq {A} (f g : A → Z) (l : list A) :
  (∀ a, a ∈ l → f a = g a) → sumZ (f <$> l) = sumZ (g <$> l).
Proof.
  intros H. apply Z.le_antisymm; apply sumZ_le; intros a Ha; rewrite (H a Ha); lia.
Qed.

Lemma sumZ_nonneg {A} (f : A → Z) (l : list A) :
  (∀ a, a ∈ l → 0 ≤ f a) → 0 ≤ sumZ (f <$> l).
Proof.
  intros H. induction l as [|a l IH]; [done|].
  rewrite sumZ_cons_fmap.
  pose proof (H a (list_elem_of_here _ _)).
  assert (0 ≤ sumZ (f <$> l)); [|lia].
  apply IH. intros b Hb. apply H. by apply list_elem_of_further.
Qed.

Lemma sumZ_scale {A} (k : Z) (f : A → Z) (l : list A) :
  sumZ ((λ a, k * f a) <$> l) = k * sumZ (f <$> l).
Proof. induction l as [|a l IH]; [simpl; lia | rewrite !sumZ_cons_fmap, IH; lia]. Qed.

Lemma sumZ_plus {A} (f g : A → Z) (l : list A) :
  sumZ ((λ a, f a + g a) <$> l) = sumZ (f <$> l) + sumZ (g <$> l).
Proof. induction l as [|a l IH]; [done | rewrite !sumZ_cons_fmap, IH; lia]. Qed.

Lemma sumZ_const {A} (k : Z) (l : list A) :
  sumZ ((λ _, k) <$> l) = k * Z.of_nat (length l).
Proof.
  induction l as [|a l IH]; [simpl; lia|].
  rewrite sumZ_cons_fmap, IH, length_cons. lia.
Qed.

Lemma sumZ_elem_le {A} (f : A → Z) (l : list A) a :
  (∀ b, b ∈ l → 0 ≤ f b) → a ∈ l → f a ≤ sumZ (f <$> l).
Proof.
  intros Hnn Ha. induction l as [|b l IH]; [by apply elem_of_nil in Ha|].
  rewrite sumZ_cons_fmap.
  assert (0 ≤ sumZ (f <$> l)).
  { apply sumZ_nonneg. intros c Hc. apply Hnn. by apply list_elem_of_further. }
  pose proof (Hnn b (list_elem_of_here _ _)).
  apply elem_of_cons in Ha as [->|Ha]; [lia|].
  assert (f a ≤ sumZ (f <$> l)); [|lia].
  apply IH; [|done]. intros c Hc. apply Hnn. by apply list_elem_of_further.
Qed.

(** ** The dictionaries built from the roster *)

Section Roster_dict.
Context {V : Type} (f : student → V).

Lemma roster_dict_lookup (d0 : gmap string V) studs sid v :
  foldl (λ d s, <[prefId s := f s]> d) d0 studs !! sid = Some v →
  (∃ s, s ∈ studs ∧ prefId s = sid ∧ v = f s) ∨ d0 !! sid = Some v.
Proof.
  revert d0. induction studs as [|s studs IH]; intros d0 H; simpl in H; [by right|].
  apply IH in H as [(s' & Hin & Hid & Hv)|H].
  - left. exists s'. split; [by apply list_elem_of_further | done].
  - destruct (decide (prefId s = sid)) as [E|NE].
    + rewrite E, lookup_insert_eq in H. injection H as <-.
      left. exists s. split; [apply list_elem_of_here | done].
    + rewrite lookup_insert_ne in H by done. by right.
Qed.

Lemma roster_dict_is_Some (d0 : gmap string V) studs sid :
  sid ∈ prefId <$> studs ∨ is_Some (d0 !! sid) →
  is_Some (foldl (λ d s, <[prefId s := f s]> d) d0 studs !! sid).
Proof.
  revert d0. induction studs as [|s studs IH]; intros d0 H; simpl.
  - destruct H as [H|H]; [by apply elem_of_nil in H | done].
  - apply IH. destruct H as [H|H].
    + rewrite fmap_cons in H. apply elem_of_cons in H as [->|H]; [|by left].
      right. rewrite lookup_insert_eq. by eexists.
    + right. destruct (decide (prefId s = sid)) as [E|NE].
      * rewrite E, lookup_insert_eq. by eexists.
      * by rewrite lookup_insert_ne.
Qed.
End Roster_dict.

Lemma student_choices_of studs sid :
  sid ∈ student_ids studs →
  ∃ s, s ∈ studs ∧ prefId s = sid ∧ student_choices studs !!! sid = choice_tuples s.
Proof.
  intros Hin.
  destruct (roster_dict_is_Some choice_tuples ∅ studs sid (or_introl Hin)) as [cs Hcs].
  pose proof Hcs as Hcs'.
  apply roster_dict_lookup in Hcs as [(s & ? & ? & ->)|H]; [|by rewrite lookup_empty in H].
  exists s. split_and!; [done..|].
  unfold student_choices. by rewrite lookup_total_alt, Hcs'.
Qed.

(** ** The extraction loop *)

Lemma extract_loop inc sc r studs out :
  foldl (λ out s, append_entry out (extract_student inc sc r s)) out studs
  = {| assigned := assigned out ++ omap (λ s, keep_assigned (extract_student inc sc r s)) studs;
       unassigned := unassigned out ++ omap (λ s, keep_unassigned (extract_student inc sc r s)) studs;
       totalCost := totalCost out |}.
Proof.
  revert out. induction studs as [|s studs IH]; intros out.
  - simpl. rewrite !app_nil_r. by destruct out.
  - simpl foldl. rewrite IH. simpl omap.
    destruct (extract_student inc sc r s) as [a|n]; simpl; by rewrite <- app_assoc.
Qed.

Lemma extract_spec inc sc r studs :
  extract inc sc r studs
  = {| assigned := omap (λ s, keep_assigned (extract_student inc sc r s)) studs;
       unassigned := omap (λ s, keep_unassigned (extract_student inc sc r s)) studs;
       totalCost := Some (ObjVal r) |}.
Proof. unfold extract. by rewrite extract_loop. Qed.

Lemma extract_student_prefId inc sc r s :
  match extract_student inc sc r s with
  | inl a => a_prefId a = prefId s
  | inr n => n_prefId n = prefId s
  end.
Proof.
  unfold extract_student.
  destruct (List.find _ _) as [[[? ?] ?]|]; [done|].
  by destruct (gt_half _).
Qed.

Lemma count_id_cons pid i l :
  count_id pid (i :: l) = ((if decide (i = pid) then 1 else 0) + count_id pid l)%nat.
Proof. unfold count_id. rewrite filter_cons. by destruct (decide (i = pid)). Qed.

Lemma extract_counts inc sc r studs pid :
  (count_id pid (a_prefId <$> assigned (extract inc sc r studs))
   + count_id pid (n_prefId <$> unassigned (extract inc sc r studs)))%nat
  = count_id pid (student_ids studs).
Proof.
  rewrite extract_spec. simpl. unfold student_ids.
  induction studs as [|s studs IH]; [done|].
  rewrite fmap_cons, count_id_cons, <- IH.
  pose proof (extract_student_prefId inc sc r s) as Hid.
  cbn [omap list_omap].
  destruct (extract_student inc sc r s) as [a|n]; cbn [keep_assigned keep_unassigned];
    rewrite fmap_cons, count_id_cons, Hid; lia.
Qed.

Lemma no_solution_counts status studs pid :
  (count_id pid (a_prefId <$> assigned (no_solution status studs))
   + count_id pid (n_prefId <$> unassigned (no_solution status studs)))%nat
  = count_id pid (student_ids studs).
Proof.
  unfold no_solution, student_ids. simpl.
  rewrite <- list_fmap_compose. done.
Qed.

(** ** When the model is built *)

Lemma max_weight_is_Some ids sc : ids ≠ [] → is_Some (max_weight ids sc).
Proof. destruct ids; [done|]. intros _. unfold max_weight. rewrite fmap_cons. by eexists. Qed.

Lemma max_weight_nil sc : max_weight [] sc = None.
Proof. reflexivity. Qed.

Lemma student_ids_nil studs : student_ids studs = [] ↔ studs = [].
Proof. unfold student_ids. split; [apply fmap_nil_inv | by intros ->]. Qed.

Lemma base_build_model_inr studs caps opts :
  studs ≠ [] → ∃ m, assignment.build_model studs caps opts = inr m.
Proof.
  intros Hne. unfold assignment.build_model.
  destruct (max_weight_is_Some (student_ids studs) (student_choices studs)) as [mw ->];
    [by rewrite student_ids_nil | by eexists].
Qed.

Lemma ext_build_model_inr studs caps opts :
  studs ≠ [] → ∃ m, external_assign.build_model studs caps opts = inr m.
Proof.
  intros Hne. unfold external_assign.build_model.
  destruct (max_weight_is_Some (student_ids studs) (student_choices studs)) as [mw ->];
    [by rewrite student_ids_nil | by eexists].
Qed.

Lemma base_build_model_nonempty studs caps opts m :
  assignment.build_model studs caps opts = inr m → studs ≠ [].
Proof. intros H ->. discriminate H. Qed.

Lemma ext_build_model_nonempty studs caps opts m :
  external_assign.build_model studs caps opts = inr m → studs ≠ [].
Proof. intros H ->. discriminate H. Qed.

(** ** Partition of the roster *)

Lemma exactly_one_of_counts out studs pid :
  accounts_for out studs → count_id pid (student_ids studs) = 1%nat →
  in_exactly_one out pid.
Proof. intros H H1. specialize (H pid). unfold in_exactly_one. lia. Qed.

Lemma base_assign_accounts solve data studs caps opts :
  students data = Some studs → capacities data = Some caps → options data = Some opts →
  studs ≠ [] →
  ∃ out, assignment.assign solve data = inr out ∧ accounts_for out studs.
Proof.
  intros Hs Hc Ho Hne. unfold assignment.assign. rewrite Hs, Hc, Ho.
  destruct (base_build_model_inr studs caps opts Hne) as [m ->].
  cbv zeta. destruct (accepted _); eexists; (split; [done|]); intros pid.
  - apply extract_counts.
  - apply no_solution_counts.
Qed.

Lemma ext_assign_accounts solve data studs caps opts :
  students data = Some studs → capacities data = Some caps → options data = Some opts →
  studs ≠ [] →
  ∃ out, external_assign.assign solve data = inr out ∧ accounts_for out studs.
Proof.
  intros Hs Hc Ho Hne. unfold external_assign.assign. rewrite Hs, Hc, Ho.
  destruct (ext_build_model_inr studs caps opts Hne) as [m ->].
  cbv zeta. destruct (accepted _); eexists; (split; [done|]); intros pid.
  - apply extract_counts.
  - apply no_solution_counts.
Qed.

(** C1. On a document with all three top-level keys, for every student of the
    roster both scripts return an output document that lists every identifier
    as often as the roster does, split between [assigned] and [unassigned];
    a student whose identifier is unique in the roster is therefore in
    exactly one of the two lists, exactly once.  The solver is arbitrary, so
    this covers accepted and rejected statuses alike. *)
Theorem every_student_in_exactly_one_list solve data studs caps opts s :
  students data = Some studs → capacities data = Some caps → options data = Some opts →
  s ∈ studs →
  (∃ out, assignment.assign solve data = inr out
          ∧ accounts_for out studs
          ∧ (count_id (prefId s) (student_ids studs) = 1%nat → in_exactly_one out (prefId s)))
  ∧ (∃ out, external_assign.assign solve data = inr out
            ∧ accounts_for out studs
            ∧ (count_id (prefId s) (student_ids studs) = 1%nat → in_exactly_one out (prefId s))).
Proof.
  intros Hs Hc Ho Hin.
  assert (studs ≠ []) as Hne by (intros ->; by apply elem_of_nil in Hin).
  split.
  - destruct (base_assign_accounts solve data studs caps opts Hs Hc Ho Hne) as (out & E & A).
    exists out. split_and!; [done..|]. by apply exactly_one_of_counts.
  - destruct (ext_assign_accounts solve data studs caps opts Hs Hc Ho Hne) as (out & E & A).
    exists out. split_and!; [done..|]. by apply exactly_one_of_counts.
Qed.

Lemma every_student_in_exactly_one_list_witness :
  (∃ out, external_assign.assign Examples.ada_wins Examples.scenario_A = inr out
          ∧ in_exactly_one out "s2")
  ∧ (∃ out, assignment.assign Examples.gives_up Examples.scenario_A = inr out
            ∧ in_exactly_one out "s2").
Proof.
  split.
  - destruct (every_student_in_exactly_one_list Examples.ada_wins Examples.scenario_A
               [Examples.ada; Examples.bob] {[ "p" := 1 ]} Examples.no_options Examples.bob
               eq_refl eq_refl eq_refl) as [_ (out & E & _ & H)].
    + apply list_elem_of_further, list_elem_of_here.
    + exists out. split; [exact E | apply H; reflexivity].
  - destruct (every_student_in_exactly_one_list Examples.gives_up Examples.scenario_A
               [Examples.ada; Examples.bob] {[ "p" := 1 ]} Examples.no_options Examples.bob
               eq_refl eq_refl eq_refl) as [(out & E & _ & H) _].
    + apply list_elem_of_further, list_elem_of_here.
    + exists out. split; [exact E | apply H; reflexivity].
Defined.

(** ** Rejected statuses *)

(** C3. Once the model is built and the solver has answered with a status
    other than [GRB.OPTIMAL] or [GRB.SUBOPTIMAL], both scripts return (they do
    not raise) the document with an empty [assigned] list, one [unassigned]
    entry per roster student whose reason spells out the status code in
    decimal, and no [totalCost]. *)
Theorem rejected_status_reports_all_unassigned solve data studs caps opts :
  students data = Some studs → capacities data = Some caps → options data = Some opts →
  (∀ m, assignment.build_model studs caps opts = inr m →
        accepted (Status (solve m)) = false →
        assignment.assign solve data
        = inr {| assigned := [];
                 unassigned :=
                   (λ s, {| n_prefId := prefId s; n_buid := buid s;
                            n_studentName := studentName s;
                            n_reason := "ILP infeasible or no solution (status "
                                        +:+ str_of_Z (Status (solve m)) +:+ ")" |}) <$> studs;
                 totalCost := None |})
  ∧ (∀ m, external_assign.build_model studs caps opts = inr m →
          accepted (Status (solve m)) = false →
          external_assign.assign solve data
          = inr {| assigned := [];
                   unassigned :=
                     (λ s, {| n_prefId := prefId s; n_buid := buid s;
                              n_studentName := studentName s;
                              n_reason := "ILP infeasible or no solution (status "
                                          +:+ str_of_Z (Status (solve m)) +:+ ")" |}) <$> studs;
                   totalCost := None |}).
Proof.
  intros Hs Hc Ho. split; intros m Hm Hst.
  - unfold assignment.assign. rewrite Hs, Hc, Ho, Hm. cbv zeta. by rewrite Hst.
  - unfold external_assign.assign. rewrite Hs, Hc, Ho, Hm. cbv zeta. by rewrite Hst.
Qed.

Lemma rejected_status_reports_all_unassigned_witness :
  ∃ m, external_assign.build_model [Examples.ada; Examples.bob] {[ "p" := 1 ]} Examples.no_options
       = inr m
     ∧ external_assign.assign Examples.gives_up Examples.scenario_A
       = inr {| assigned := [];
                unassigned :=
                  [ {| n_prefId := "s1"; n_buid := "Us1"; n_studentName := "Ada";
                       n_reason := "ILP infeasible or no solution (status 3)" |};
                    {| n_prefId := "s2"; n_buid := "Us2"; n_studentName := "Bob";
                       n_reason := "ILP infeasible or no solution (status 3)" |} ];
                totalCost := None |}.
Proof.
  destruct (ext_build_model_inr [Examples.ada; Examples.bob] {[ "p" := 1 ]} Examples.no_options)
    as [m Hm]; [done|].
  exists m. split; [exact Hm|].
  exact (proj2 (rejected_status_reports_all_unassigned Examples.gives_up Examples.scenario_A
                  [Examples.ada; Examples.bob] {[ "p" := 1 ]} Examples.no_options
                  eq_refl eq_refl eq_refl) m Hm eq_refl).
Defined.

(** ** Raising *)

Lemma base_assign_returns solve data studs caps opts :
  students data = Some studs → capacities data = Some caps → options data = Some opts →
  studs ≠ [] → ∃ out, assignment.assign solve data = inr out.
Proof.
  intros Hs Hc Ho Hne.
  destruct (base_assign_accounts solve data studs caps opts Hs Hc Ho Hne) as (out & E & _).
  by exists out.
Qed.

Lemma ext_assign_returns solve data studs caps opts :
  students data = Some studs → capacities data = Some caps → options data = Some opts →
  studs ≠ [] → ∃ out, external_assign.assign solve data = inr out.
Proof.
  intros Hs Hc Ho Hne.
  destruct (ext_assign_accounts solve data studs caps opts Hs Hc Ho Hne) as (out & E & _).
  by exists out.
Qed.

(** [external_assign.assign] raises exactly when a top-level key is missing
    or the roster is empty. *)
Lemma ext_assign_raises_iff solve data :
  (∃ e, external_assign.assign solve data = inl e)
  ↔ students data = None ∨ capacities data = None ∨ options data = None
    ∨ students data = Some [].
Proof.
  split.
  - intros [e He].
    destruct (students data) as [studs|] eqn:Hs; [|by left].
    destruct (capacities data) as [caps|] eqn:Hc; [|by right; left].
    destruct (options data) as [opts|] eqn:Ho; [|by right; right; left].
    destruct studs as [|s studs]; [by right; right; right|].
    destruct (ext_assign_returns solve data (s :: studs) caps opts Hs Hc Ho) as [out E];
      [done | congruence].
  - unfold external_assign.assign.
    intros [->|[H|[H|H]]]; [by eexists|..].
    + rewrite H. destruct (students data); by eexists.
    + rewrite H. destruct (students data), (capacities data); by eexists.
    + rewrite H. destruct (capacities data), (options data); by eexists.
Qed.

(** C4 (the code departs from the claim). On the well-formed document
    [{"students": [], "capacities": {}, "options": {}}] all three keys are
    present, yet both scripts raise: [max] is applied to an empty sequence
    when the penalty is computed. *)
Theorem assign_raises_on_empty_roster solve :
  external_assign.assign solve Examples.empty_roster = inl empty_max
  ∧ assignment.assign solve Examples.empty_roster = inl empty_max.
Proof. split; reflexivity. Qed.

(** ** Shape of the constructed model *)

Lemma elem_of_projects caps p : p ∈ projects caps ↔ is_Some (caps !! p).
Proof.
  unfold projects. rewrite list_elem_of_fmap. split.
  - intros ([k c] & -> & H). apply elem_of_map_to_list in H. by eexists.
  - intros [c H]. exists (p, c). split; [done | by apply elem_of_map_to_list].
Qed.

Lemma assign_constr_in ids sc caps mc sid :
  sid ∈ ids → assign_constr sc sid ∈ base_constrs ids sc caps mc.
Proof.
  intros H. unfold base_constrs. apply elem_of_app. left.
  apply list_elem_of_fmap. by exists sid.
Qed.

Lemma max_capacity_constr_in ids sc caps mc p :
  p ∈ projects caps → max_capacity_constr ids sc caps p ∈ base_constrs ids sc caps mc.
Proof.
  intros H. unfold base_constrs. apply elem_of_app. right.
  apply list_elem_of_bind. exists p. split; [|done]. apply list_elem_of_here.
Qed.

Lemma min_capacity_constr_in ids sc caps mc p :
  p ∈ projects caps → min_capacity_constr ids sc caps mc p ∈ base_constrs ids sc caps mc.
Proof.
  intros H. unfold base_constrs. apply elem_of_app. right.
  apply list_elem_of_bind. exists p. split; [|done].
  apply list_elem_of_further, list_elem_of_here.
Qed.

Lemma base_build_model_eq studs caps opts m :
  assignment.build_model studs caps opts = inr m →
  ∃ mw, max_weight (student_ids studs) (student_choices studs) = Some mw
    ∧ m = {| m_vars := x_vars (student_ids studs) (student_choices studs)
                        ++ u_vars (student_ids studs) ++ y_vars caps;
             m_constrs := base_constrs (student_ids studs) (student_choices studs) caps
                            (default 0 (minTeamSize opts));
             m_objective := objective (student_ids studs) (student_choices studs) mw |}.
Proof.
  unfold assignment.build_model. destruct (max_weight _ _) as [mw|]; [|done].
  intros [= <-]. by exists mw.
Qed.

Lemma ext_build_model_eq studs caps opts m :
  external_assign.build_model studs caps opts = inr m →
  ∃ mw extra_vars extra_constrs,
    max_weight (student_ids studs) (student_choices studs) = Some mw
    ∧ m = {| m_vars := x_vars (student_ids studs) (student_choices studs)
                        ++ u_vars (student_ids studs) ++ y_vars caps ++ extra_vars;
             m_constrs := base_constrs (student_ids studs) (student_choices studs) caps
                            (default 0 (minTeamSize opts)) ++ extra_constrs;
             m_objective := objective (student_ids studs) (student_choices studs) mw |}.
Proof.
  unfold external_assign.build_model. destruct (max_weight _ _) as [mw|]; [|done].
  intros [= <-]. by eexists mw, _, _.
Qed.

(** ** The minimum-occupancy floor *)

Lemma min_capacity_cases mc c :
  min_capacity mc c = if decide (mc < c) then mc else 0.
Proof.
  unfold min_capacity. destruct (Z.geb_spec mc c); case_decide; lia.
Qed.

(** C5 (as the code has it). For every project [p] of capacity [c], the model
    of either script contains the constraint
    [load(p) >= e * y_p] where [e] is [minTeamSize] (0 when the option is
    absent) if [minTeamSize < c], and 0 if [minTeamSize >= c]: the floor is
    switched off as soon as [minTeamSize] reaches the capacity, equality
    included. *)
Theorem min_occupancy_floor studs caps opts p c :
  studs ≠ [] → caps !! p = Some c →
  let mts := default 0 (minTeamSize opts) in
  let e := if decide (mts < c) then mts else 0 in
  let floor :=
    {| c_lhs := project_load (student_ids studs) (student_choices studs) p;
       c_sense := GreaterEqual;
       c_rhs := lin_scale e (lin_var (y_var p));
       c_name := "min_capacity_" +:+ p |} in
  (c ≤ mts → e = 0) ∧ (mts < c → e = mts)
  ∧ (∃ m, assignment.build_model studs caps opts = inr m ∧ floor ∈ m_constrs m)
  ∧ (∃ m, external_assign.build_model studs caps opts = inr m ∧ floor ∈ m_constrs m).
Proof.
  intros Hne Hc mts e floor.
  assert (floor = min_capacity_constr (student_ids studs) (student_choices studs) caps mts p) as ->.
  { unfold floor, min_capacity_constr, e.
    by rewrite min_capacity_cases, (lookup_total_correct _ _ _ Hc). }
  assert (p ∈ projects caps) as Hp by (apply elem_of_projects; by eexists).
  split_and!.
  - intros. unfold e. case_decide; lia.
  - intros. unfold e. case_decide; lia.
  - destruct (base_build_model_inr studs caps opts Hne) as [m Hm]. exists m. split; [done|].
    apply base_build_model_eq in Hm as (mw & _ & ->). simpl.
    by apply min_capacity_constr_in.
  - destruct (ext_build_model_inr studs caps opts Hne) as [m Hm]. exists m. split; [done|].
    apply ext_build_model_eq in Hm as (mw & ev & ec & _ & ->). simpl.
    apply elem_of_app. left. by apply min_capacity_constr_in.
Qed.

Lemma min_occupancy_floor_witness :
  ∃ m, external_assign.build_model [Examples.ada] {[ "p" := 5 ]} Examples.team_of_four = inr m
       ∧ Examples.floor_constr 4 ∈ m_constrs m.
Proof.
  destruct (min_occupancy_floor [Examples.ada] {[ "p" := 5 ]} Examples.team_of_four "p" 5)
    as (_ & _ & _ & m & Hm & Hin); [done | reflexivity |].
  exists m. split; [exact Hm | exact Hin].
Defined.

(** C5, counterexample to the claim as stated: with [minTeamSize = 4] and a
    project of capacity 4 the floor is not 4 but 0. *)
Lemma min_occupancy_equal_capacity_is_clamped :
  min_capacity 4 4 = 0
  ∧ ∃ m, external_assign.build_model [Examples.ada] Examples.full_team_caps
           Examples.team_of_four = inr m
         ∧ Examples.floor_constr 0 ∈ m_constrs m
         ∧ Examples.floor_constr 4 ∉ m_constrs m.
Proof.
  split; [reflexivity|].
  eexists. split; [reflexivity|]. split.
  - vm_compute. do 2 apply list_elem_of_further. apply list_elem_of_here.
  - apply (bool_decide_unpack _). vm_compute. reflexivity.
Qed.

(** ** What feasibility gives, base part *)

Lemma elem_of_x_keys ids sc sid p :
  (sid, p) ∈ x_keys ids sc ↔ sid ∈ ids ∧ ∃ c, c ∈ sc !!! sid ∧ proj_of c = p.
Proof.
  unfold x_keys. rewrite list_elem_of_bind. split.
  - intros (sid' & H & Hin). apply list_elem_of_fmap in H as (c & [= -> ->] & Hc).
    split; [done|]. by exists c.
  - intros (Hin & c & Hc & <-). exists sid. split; [|done].
    apply list_elem_of_fmap. by exists c.
Qed.

Lemma base_feasible_of_base studs caps opts m v :
  assignment.build_model studs caps opts = inr m → feasible m v →
  base_feasible (student_ids studs) (student_choices studs) caps
    (default 0 (minTeamSize opts)) v.
Proof.
  intros Hm [Hb Hc]. apply base_build_model_eq in Hm as (mw & _ & ->). by split.
Qed.

Lemma base_feasible_of_ext studs caps opts m v :
  external_assign.build_model studs caps opts = inr m → feasible m v →
  base_feasible (student_ids studs) (student_choices studs) caps
    (default 0 (minTeamSize opts)) v.
Proof.
  intros Hm [Hb Hc]. apply ext_build_model_eq in Hm as (mw & ev & ec & _ & ->).
  simpl in Hb, Hc. split.
  - rewrite !app_assoc in Hb. apply Forall_app in Hb as [Hb _]. by rewrite <- app_assoc in Hb.
  - by apply Forall_app in Hc as [Hc _].
Qed.

Section Base_facts.
Context (ids : list string) (sc : gmap string (list choice_tuple))
        (caps : gmap string Z) (mc : Z) (v : var → Z).
Hypothesis Hfeas : base_feasible ids sc caps mc v.

Lemma x_binary sid c : sid ∈ ids → c ∈ sc !!! sid → binary v (x_var sid (proj_of c)).
Proof.
  intros Hs Hc. destruct Hfeas as [Hb _].
  rewrite Forall_forall in Hb. apply Hb.
  apply elem_of_app. left. unfold x_vars. apply list_elem_of_fmap.
  exists (sid, proj_of c). split; [done|]. apply elem_of_x_keys. eauto.
Qed.

Lemma x_binary_key sid p : (sid, p) ∈ x_keys ids sc → binary v (x_var sid p).
Proof. intros (Hs & c & Hc & <-)%elem_of_x_keys. by apply x_binary. Qed.

Lemma u_binary sid : sid ∈ ids → binary v (u_var sid).
Proof.
  intros Hs. destruct Hfeas as [Hb _].
  rewrite Forall_forall in Hb. apply Hb.
  apply elem_of_app. right. apply elem_of_app. left.
  unfold u_vars. apply list_elem_of_fmap. by exists sid.
Qed.

Lemma y_binary p : p ∈ projects caps → binary v (y_var p).
Proof.
  intros Hp. destruct Hfeas as [Hb _].
  rewrite Forall_forall in Hb. apply Hb.
  apply elem_of_app. right. apply elem_of_app. right.
  unfold y_vars. apply list_elem_of_fmap. by exists p.
Qed.

Lemma exactly_one sid :
  sid ∈ ids →
  sumZ ((λ c, v (x_var sid (proj_of c))) <$> sc !!! sid) + v (u_var sid) = 1.
Proof.
  intros Hs. destruct Hfeas as [_ Hc].
  rewrite Forall_forall in Hc.
  pose proof (Hc _ (assign_constr_in ids sc caps mc sid Hs)) as H.
  unfold holds, assign_constr in H. simpl in H.
  rewrite eval_lin_add, eval_lin_var, eval_lin_const, eval_quicksum_fmap in H.
  rewrite <- H. f_equal. apply sumZ_eq. intros c _. by rewrite eval_lin_var.
Qed.

Lemma eval_project_load p :
  eval v (project_load ids sc p)
  = sumZ ((λ sid, v (x_var sid p)) <$> filter (λ sid, (sid, p) ∈ x_keys ids sc) ids).
Proof.
  unfold project_load. rewrite eval_quicksum_fmap.
  apply sumZ_eq. intros sid _. apply eval_lin_var.
Qed.

Lemma capacity_ceiling p :
  p ∈ projects caps →
  sumZ ((λ sid, v (x_var sid p)) <$> filter (λ sid, (sid, p) ∈ x_keys ids sc) ids)
  ≤ (caps !!! p) * v (y_var p).
Proof.
  intros Hp. destruct Hfeas as [_ Hc].
  rewrite Forall_forall in Hc.
  pose proof (Hc _ (max_capacity_constr_in ids sc caps mc p Hp)) as H.
  unfold holds, max_capacity_constr in H. simpl in H.
  by rewrite eval_lin_scale, eval_lin_var, eval_project_load in H.
Qed.

Lemma occupancy_floor p :
  p ∈ projects caps →
  min_capacity mc (caps !!! p) * v (y_var p)
  ≤ sumZ ((λ sid, v (x_var sid p)) <$> filter (λ sid, (sid, p) ∈ x_keys ids sc) ids).
Proof.
  intros Hp. destruct Hfeas as [_ Hc].
  rewrite Forall_forall in Hc.
  pose proof (Hc _ (min_capacity_constr_in ids sc caps mc p Hp)) as H.
  unfold holds, min_capacity_constr in H. simpl in H.
  by rewrite eval_lin_scale, eval_lin_var, eval_project_load in H.
Qed.
End Base_facts.

(** Counting the ones of a 0/1-valued function. *)
Lemma count_ones_le_sum {A} (f : A → Z) (Q : A → Prop) `{!∀ a, Decision (Q a)} (l : list A) :
  (∀ a, a ∈ l → Q a → 0 ≤ f a) →
  Z.of_nat (length (filter (λ a, Q a ∧ f a = 1) l)) ≤ sumZ (f <$> filter Q l).
Proof.
  induction l as [|a l IH]; intros Hnn; [done|].
  assert (Z.of_nat (length (filter (λ a, Q a ∧ f a = 1) l)) ≤ sumZ (f <$> filter Q l)) as IH'.
  { apply IH. intros b Hb. apply Hnn. by apply list_elem_of_further. }
  pose proof (Hnn a (list_elem_of_here _ _)) as Ha.
  rewrite !filter_cons.
  destruct (decide (Q a)) as [q|nq].
  - rewrite sumZ_cons_fmap. specialize (Ha q).
    destruct (decide (Q a ∧ f a = 1)) as [[_ E]|_]; [rewrite length_cons|]; lia.
  - destruct (decide (Q a ∧ f a = 1)) as [[q _]|_]; [done | lia].
Qed.

Lemma students_on_le_capacity ids sc caps mc v p c :
  base_feasible ids sc caps mc v → caps !! p = Some c → 0 ≤ c →
  (students_on v ids sc p ≤ Z.to_nat c)%nat.
Proof.
  intros Hf Hc Hnn.
  assert (p ∈ projects caps) as Hp by (apply elem_of_projects; by eexists).
  pose proof (capacity_ceiling ids sc caps mc v Hf p Hp) as Hcap.
  rewrite (lookup_total_correct _ _ _ Hc) in Hcap.
  pose proof (count_ones_le_sum (λ sid, v (x_var sid p)) (λ sid, (sid, p) ∈ x_keys ids sc) ids) as Hcnt.
  unfold students_on.
  assert (c * v (y_var p) ≤ c) by (destruct (y_binary ids sc caps mc v Hf p Hp) as [-> | ->]; lia).
  assert (∀ a, a ∈ ids → (a, p) ∈ x_keys ids sc → 0 ≤ v (x_var a p)) as Hx.
  { intros a _ Hk. destruct (x_binary_key ids sc caps mc v Hf a p Hk) as [-> | ->]; lia. }
  specialize (Hcnt Hx). lia.
Qed.

(** ** Reading the solution back *)

Lemma rounded_1 r k : rounded r k = 1 ↔ gt_half (VarX r k) = true.
Proof. unfold rounded. destruct (gt_half _); split; (done || lia). Qed.

Lemma rounded_0 r k : rounded r k = 0 ↔ gt_half (VarX r k) = false.
Proof. unfold rounded. destruct (gt_half _); split; (done || lia). Qed.

Lemma extract_student_inl inc sc r s a :
  extract_student inc sc r s = inl a →
  ∃ c, c ∈ sc !!! prefId s
       ∧ rounded r (x_var (prefId s) (proj_of c)) = 1
       ∧ a = {| a_prefId := prefId s; a_buid := buid s; a_studentName := studentName s;
                a_projectId := proj_of c; a_projectName := c.1.2; a_rank := rank_of c |}.
Proof.
  unfold extract_student.
  destruct (List.find _ _) as [[[p n] rk]|] eqn:Hfind.
  - intros [= <-]. apply find_some in Hfind as [Hin Hgt].
    exists (p, n, rk). split_and!; [by apply list_elem_of_In | by apply rounded_1 | done].
  - by destruct (gt_half _).
Qed.

Lemma find_none_iff {A} (f : A → bool) l : List.find f l = None ↔ ∀ a, a ∈ l → f a = false.
Proof.
  split.
  - intros H a Ha. apply (find_none f l H). by apply list_elem_of_In.
  - intros H. induction l as [|a l IH]; [done|]. simpl.
    rewrite (H a (list_elem_of_here _ _)). apply IH.
    intros b Hb. apply H. by apply list_elem_of_further.
Qed.

Lemma extract_student_inr inc sc r s n :
  extract_student inc sc r s = inr n →
  (∀ c, c ∈ sc !!! prefId s → rounded r (x_var (prefId s) (proj_of c)) = 0)
  ∧ n = {| n_prefId := prefId s; n_buid := buid s; n_studentName := studentName s;
           n_reason := if gt_half (VarX r (u_var (prefId s)))
                       then no_capacity_reason else inc |}.
Proof.
  unfold extract_student.
  destruct (List.find _ _) as [[[p nm] rk]|] eqn:Hfind; [done|].
  intros H. split.
  - intros c Hc. apply rounded_0. by apply (proj1 (find_none_iff _ _) Hfind c).
  - destruct (gt_half _); by injection H as <-.
Qed.

Lemma placed_on_extract inc r ids sc p (l : list student) :
  (∀ s, s ∈ l → prefId s ∈ ids) →
  (length (filter (λ a, a_projectId a = p)
             (omap (λ s, keep_assigned (extract_student inc sc r s)) l))
   ≤ length (filter (λ sid, (sid, p) ∈ x_keys ids sc ∧ rounded r (x_var sid p) = 1%Z)
               (prefId <$> l)))%nat.
Proof.
  induction l as [|s l IH]; intros Hin; [done|].
  assert (∀ s, s ∈ l → prefId s ∈ ids) as Hin' by (intros; by apply Hin, list_elem_of_further).
  specialize (IH Hin'). pose proof (Hin s (list_elem_of_here _ _)) as Hs.
  rewrite fmap_cons. cbn [omap list_omap].
  rewrite (filter_cons _ (prefId s)).
  destruct (extract_student inc sc r s) as [a|n] eqn:E; cbn [keep_assigned].
  - apply extract_student_inl in E as (c & Hc & Hone & ->).
    rewrite filter_cons. cbn [a_projectId].
    destruct (decide (proj_of c = p)) as [<-|NE].
    + rewrite decide_True; [rewrite !length_cons; lia|].
      split; [|done]. apply elem_of_x_keys. eauto.
    + case_decide; [rewrite length_cons|]; lia.
  - case_decide; [rewrite length_cons|]; lia.
Qed.

Lemma placed_on_extract_roster inc r studs p :
  (placed_on (extract inc (student_choices studs) r studs) p
   ≤ students_on (rounded r) (student_ids studs) (student_choices studs) p)%nat.
Proof.
  unfold placed_on, students_on. rewrite extract_spec. simpl.
  apply placed_on_extract. intros s Hs. unfold student_ids.
  apply list_elem_of_fmap. by exists s.
Qed.

(** ** Capacity *)

(** C6. Let [p] be a project of capacity [c >= 0].  In every feasible point of
    the model of either script at most [c] roster entries hold a seat of [p],
    and whenever the solver's answer is sound for that model, the returned
    document names [p] in at most [c] of its [assigned] entries; for [c = 0]
    that is none. *)
Theorem capacity_never_exceeded studs caps opts p c :
  caps !! p = Some c → 0 ≤ c →
  (∀ m v, assignment.build_model studs caps opts = inr m
          ∨ external_assign.build_model studs caps opts = inr m →
          feasible m v →
          (students_on v (student_ids studs) (student_choices studs) p ≤ Z.to_nat c)%nat)
  ∧ (∀ solve data m,
       students data = Some studs → capacities data = Some caps → options data = Some opts →
       assignment.build_model studs caps opts = inr m → sound_on m (solve m) →
       ∃ out, assignment.assign solve data = inr out ∧ (placed_on out p ≤ Z.to_nat c)%nat)
  ∧ (∀ solve data m,
       students data = Some studs → capacities data = Some caps → options data = Some opts →
       external_assign.build_model studs caps opts = inr m → sound_on m (solve m) →
       ∃ out, external_assign.assign solve data = inr out ∧ (placed_on out p ≤ Z.to_nat c)%nat).
Proof.
  intros Hc Hnn. split_and!.
  - intros m v [Hm|Hm] Hf.
    + eapply students_on_le_capacity; [by eapply base_feasible_of_base | done..].
    + eapply students_on_le_capacity; [by eapply base_feasible_of_ext | done..].
  - intros solve data m Hs Hcp Ho Hm Hsound.
    unfold assignment.assign. rewrite Hs, Hcp, Ho, Hm. cbv zeta.
    destruct (accepted (Status (solve m))) eqn:Hacc; eexists; (split; [done|]).
    + etrans; [apply placed_on_extract_roster|].
      eapply students_on_le_capacity; [|done..].
      eapply base_feasible_of_base; [done|]. by apply Hsound.
    + unfold placed_on. simpl. lia.
  - intros solve data m Hs Hcp Ho Hm Hsound.
    unfold external_assign.assign. rewrite Hs, Hcp, Ho, Hm. cbv zeta.
    destruct (accepted (Status (solve m))) eqn:Hacc; eexists; (split; [done|]).
    + etrans; [apply placed_on_extract_roster|].
      eapply students_on_le_capacity; [|done..].
      eapply base_feasible_of_ext; [done|]. by apply Hsound.
    + unfold placed_on. simpl. lia.
Qed.

Lemma capacity_never_exceeded_witness :
  ∃ out, external_assign.assign Examples.ada_wins Examples.scenario_A = inr out
         ∧ (placed_on out "p" ≤ 1)%nat.
Proof.
  destruct (capacity_never_exceeded [Examples.ada; Examples.bob] {[ "p" := 1 ]}
              Examples.no_options "p" 1) as (_ & _ & H); [reflexivity | lia |].
  eapply (H Examples.ada_wins Examples.scenario_A _ eq_refl eq_refl eq_refl).
  - vm_compute. reflexivity.
  - intros _. apply (bool_decide_unpack _). vm_compute. reflexivity.
Defined.

(** ** The penalty *)

Lemma foldl_max_ge n ns : n ≤ foldl Z.max n ns.
Proof.
  revert n. induction ns as [|k ns IH]; intros n; simpl; [lia|].
  etrans; [|apply IH]. lia.
Qed.

Lemma foldl_max_upper n ns k : k ∈ n :: ns → k ≤ foldl Z.max n ns.
Proof.
  revert n. induction ns as [|a ns IH]; intros n Hk.
  - apply list_elem_of_singleton in Hk as ->. simpl. lia.
  - simpl. apply elem_of_cons in Hk as [->|Hk].
    + etrans; [|apply foldl_max_ge]. lia.
    + apply elem_of_cons in Hk as [->|Hk].
      * etrans; [|apply foldl_max_ge]. lia.
      * apply IH. by apply list_elem_of_further.
Qed.

Lemma foldl_max_attained n ns : foldl Z.max n ns ∈ n :: ns.
Proof.
  revert n. induction ns as [|a ns IH]; intros n; simpl; [apply list_elem_of_here|].
  specialize (IH (Z.max n a)). apply elem_of_cons in IH as [E|IH].
  - rewrite E. destruct (Z.max_spec n a) as [[_ ->]|[_ ->]].
    + apply list_elem_of_further, list_elem_of_here.
    + apply list_elem_of_here.
  - by do 2 apply list_elem_of_further.
Qed.

Lemma max_weight_spec ids sc mw :
  max_weight ids sc = Some mw →
  (∀ sid, sid ∈ ids → Z.of_nat (length (sc !!! sid)) ≤ mw)
  ∧ (∃ sid, sid ∈ ids ∧ mw = Z.of_nat (length (sc !!! sid))).
Proof.
  unfold max_weight.
  destruct ((λ sid, Z.of_nat (length (sc !!! sid))) <$> ids) as [|n ns] eqn:E; [done|].
  intros [= <-]. split.
  - intros sid Hsid. apply foldl_max_upper. rewrite <- E.
    apply list_elem_of_fmap. by exists sid.
  - pose proof (foldl_max_attained n ns) as H. rewrite <- E in H.
    apply list_elem_of_fmap in H as (sid & -> & Hsid). by exists sid.
Qed.

Lemma eval_preference_score ids sc v :
  eval v (preference_score ids sc)
  = sumZ ((λ sid, sumZ ((λ c, (Z.of_nat (length (sc !!! sid)) - rank_of c + 1)
                               * v (x_var sid (proj_of c))) <$> sc !!! sid)) <$> ids).
Proof.
  unfold preference_score. rewrite eval_quicksum_bind.
  apply sumZ_eq. intros sid _. rewrite eval_quicksum_fmap.
  apply sumZ_eq. intros c _. by rewrite eval_lin_scale, eval_lin_var.
Qed.

Lemma eval_penalty ids mw v :
  eval v (penalty ids mw)
  = unassigned_penalty ids mw * sumZ ((λ sid, v (u_var sid)) <$> ids).
Proof.
  unfold penalty. rewrite eval_quicksum_fmap, <- sumZ_scale.
  apply sumZ_eq. intros sid _. by rewrite eval_lin_scale, eval_lin_var.
Qed.

Lemma eval_objective ids sc mw v :
  eval v (objective ids sc mw)
  = eval v (preference_score ids sc)
    - (Z.of_nat (length ids) * mw + 1) * sumZ ((λ sid, v (u_var sid)) <$> ids).
Proof. unfold objective. by rewrite eval_lin_sub, eval_penalty. Qed.

Lemma length_filter_sum {A} (P : A → Prop) `{!∀ a, Decision (P a)} (l : list A) :
  Z.of_nat (length (filter P l)) = sumZ ((λ a, if decide (P a) then 1 else 0) <$> l).
Proof.
  induction l as [|a l IH]; [done|].
  rewrite filter_cons, sumZ_cons_fmap, <- IH.
  destruct (decide (P a)); [rewrite length_cons|]; lia.
Qed.

Lemma sc_ranks_in_range studs sid c :
  ranks_in_range studs → sid ∈ student_ids studs → c ∈ student_choices studs !!! sid →
  1 ≤ rank_of c ≤ Z.of_nat (length (student_choices studs !!! sid)).
Proof.
  intros Hr Hsid Hc.
  destruct (student_choices_of studs sid Hsid) as (s & Hs & _ & E).
  rewrite E in Hc |- *. unfold choice_tuples in *.
  apply list_elem_of_fmap in Hc as (c' & -> & Hc').
  rewrite length_fmap. unfold ranks_in_range in Hr.
  rewrite Forall_forall in Hr. specialize (Hr s Hs).
  rewrite Forall_forall in Hr. apply (Hr c' Hc').
Qed.

Section Dominance.
Context (ids : list string) (sc : gmap string (list choice_tuple))
        (caps : gmap string Z) (mc : Z) (mw : Z).
Hypothesis Hranks : ∀ sid c, sid ∈ ids → c ∈ sc !!! sid →
                             1 ≤ rank_of c ≤ Z.of_nat (length (sc !!! sid)).
Hypothesis Hmw : ∀ sid, sid ∈ ids → Z.of_nat (length (sc !!! sid)) ≤ mw.

Let seat (v : var → Z) (sid : string) : Z :=
  sumZ ((λ c, v (x_var sid (proj_of c))) <$> sc !!! sid).
Let reward (v : var → Z) (sid : string) : Z :=
  sumZ ((λ c, (Z.of_nat (length (sc !!! sid)) - rank_of c + 1)
              * v (x_var sid (proj_of c))) <$> sc !!! sid).

Lemma reward_bounds v sid :
  base_feasible ids sc caps mc v → sid ∈ ids →
  0 ≤ reward v sid ≤ mw * seat v sid.
Proof.
  intros Hf Hsid. unfold reward, seat. split.
  - apply sumZ_nonneg. intros c Hc.
    pose proof (Hranks sid c Hsid Hc).
    destruct (x_binary ids sc caps mc v Hf sid c Hsid Hc) as [-> | ->]; lia.
  - rewrite <- sumZ_scale. apply sumZ_le. intros c Hc.
    pose proof (Hranks sid c Hsid Hc). pose proof (Hmw sid Hsid).
    destruct (x_binary ids sc caps mc v Hf sid c Hsid Hc) as [-> | ->]; lia.
Qed.

Lemma seat_indicator v sid :
  base_feasible ids sc caps mc v → sid ∈ ids →
  seat v sid = (if decide (is_assigned sc v sid) then 1 else 0)
  ∧ v (u_var sid) = 1 - seat v sid.
Proof.
  intros Hf Hsid.
  pose proof (exactly_one ids sc caps mc v Hf sid Hsid) as H1. fold (seat v sid) in H1.
  split; [|lia].
  assert (∀ c, c ∈ sc !!! sid → 0 ≤ v (x_var sid (proj_of c))) as Hnn.
  { intros c Hc. destruct (x_binary ids sc caps mc v Hf sid c Hsid Hc) as [-> | ->]; lia. }
  case_decide as Ha.
  - unfold is_assigned in Ha. apply Exists_exists in Ha as (c & Hc & Hone).
    pose proof (sumZ_elem_le (λ c, v (x_var sid (proj_of c))) _ c Hnn Hc) as Hle.
    simpl in Hle. fold (seat v sid) in Hle.
    destruct (u_binary ids sc caps mc v Hf sid Hsid) as [Hu|Hu]; lia.
  - unfold seat. rewrite (sumZ_eq _ (λ _, 0)); [rewrite sumZ_const; lia|].
    intros c Hc.
    destruct (x_binary ids sc caps mc v Hf sid c Hsid Hc) as [E|E]; [done|].
    exfalso. apply Ha. apply Exists_exists. by exists c.
Qed.

Lemma objective_by_count v :
  base_feasible ids sc caps mc v →
  let A := Z.of_nat (assigned_count ids sc v) in
  let n := Z.of_nat (length ids) in
  0 ≤ A ≤ n
  ∧ eval v (objective ids sc mw) = sumZ (reward v <$> ids) - (n * mw + 1) * (n - A)
  ∧ 0 ≤ sumZ (reward v <$> ids) ≤ mw * A.
Proof.
  intros Hf A n.
  assert (A = sumZ (seat v <$> ids)) as HA.
  { unfold A, assigned_count. rewrite length_filter_sum.
    apply sumZ_eq. intros sid Hsid. by rewrite (proj1 (seat_indicator v sid Hf Hsid)). }
  assert (sumZ ((λ sid, v (u_var sid)) <$> ids) = n - A) as HU.
  { rewrite (sumZ_eq _ (λ sid, 1 + (-1) * seat v sid)).
    - rewrite sumZ_plus, sumZ_scale, sumZ_const, <- HA. unfold n. lia.
    - intros sid Hsid. rewrite (proj2 (seat_indicator v sid Hf Hsid)). lia. }
  split_and!.
  - unfold A. lia.
  - unfold A, assigned_count, n.
    pose proof (length_filter (is_assigned sc v) ids). lia.
  - by rewrite eval_objective, eval_preference_score, HU.
  - apply sumZ_nonneg. intros sid Hsid. by apply reward_bounds.
  - rewrite HA, <- sumZ_scale. apply sumZ_le. intros sid Hsid. by apply reward_bounds.
Qed.

Lemma more_assigned_scores_higher v1 v2 :
  base_feasible ids sc caps mc v1 → base_feasible ids sc caps mc v2 →
  (assigned_count ids sc v2 < assigned_count ids sc v1)%nat →
  eval v2 (objective ids sc mw) < eval v1 (objective ids sc mw).
Proof.
  intros Hf1 Hf2 Hlt.
  destruct (objective_by_count v1 Hf1) as ([? ?] & -> & [? ?]).
  destruct (objective_by_count v2 Hf2) as ([? ?] & -> & [? ?]).
  assert (0 ≤ mw).
  { destruct ids as [|sid ids']; [simpl in *; lia|].
    pose proof (Hmw sid (list_elem_of_here _ _)). lia. }
  nia.
Qed.
End Dominance.

(** ** Rosters with unique identifiers *)

Lemma prefId_unique (studs : list student) s s' :
  NoDup (student_ids studs) → s ∈ studs → s' ∈ studs → prefId s = prefId s' → s = s'.
Proof.
  unfold student_ids. induction studs as [|a l IH]; intros Hnd Hs Hs' E.
  - by apply elem_of_nil in Hs.
  - rewrite fmap_cons in Hnd. apply NoDup_cons in Hnd as [Hnotin Hnd].
    assert (∀ t, t ∈ l → prefId t ≠ prefId a) as Hne.
    { intros t Ht Et. apply Hnotin. rewrite <- Et. apply list_elem_of_fmap. by exists t. }
    apply elem_of_cons in Hs as [->|Hs]; apply elem_of_cons in Hs' as [->|Hs'].
    + done.
    + exfalso. by apply (Hne s' Hs').
    + exfalso. by apply (Hne s Hs).
    + by apply IH.
Qed.

(** With unique identifiers the count on record for a student is the length
    of that student's own choice list. *)
Lemma choice_count_own studs s :
  NoDup (student_ids studs) → s ∈ studs →
  choice_count studs s = Z.of_nat (length (default [] (choices s))).
Proof.
  intros Hnd Hs. unfold choice_count.
  assert (prefId s ∈ student_ids studs) as Hid
    by (unfold student_ids; apply list_elem_of_fmap; by exists s).
  destruct (student_choices_of studs (prefId s) Hid) as (s' & Hs' & E & ->).
  rewrite (prefId_unique studs s' s Hnd Hs' Hs E).
  unfold choice_tuples. by rewrite length_fmap.
Qed.

Lemma sumZ_fmap_fmap {A B} (g : A → B) (f : B → Z) (l : list A) :
  sumZ (f <$> (g <$> l)) = sumZ ((λ a, f (g a)) <$> l).
Proof. by rewrite <- list_fmap_compose. Qed.

(** C2. In the model of either script the objective is the preference score
    minus [(studentCount * mw + 1)] times the number of unassigned marks,
    where [mw] is the largest choice count on record; and when every rank
    lies between 1 and the length of its own list, of two feasible points the
    one in which strictly more students hold a seat has the strictly larger
    objective value. *)
Theorem unassigned_penalty_dominates studs caps opts m :
  ranks_in_range studs →
  assignment.build_model studs caps opts = inr m
  ∨ external_assign.build_model studs caps opts = inr m →
  let ids := student_ids studs in
  let sc := student_choices studs in
  ∃ mw,
    (∀ s, s ∈ studs → choice_count studs s ≤ mw)
    ∧ (∃ s, s ∈ studs ∧ mw = choice_count studs s)
    ∧ unassigned_penalty ids mw = Z.of_nat (length studs) * mw + 1
    ∧ (∀ v, objective_value m v
            = eval v (preference_score ids sc)
              - (Z.of_nat (length studs) * mw + 1)
                * sumZ ((λ s, v (u_var (prefId s))) <$> studs))
    ∧ (∀ v1 v2, feasible m v1 → feasible m v2 →
                (assigned_count ids sc v2 < assigned_count ids sc v1)%nat →
                objective_value m v2 < objective_value m v1).
Proof.
  intros Hr Hm ids sc.
  assert (∃ mw, max_weight ids sc = Some mw ∧ m_objective m = objective ids sc mw
                ∧ ∀ v, feasible m v → base_feasible ids sc caps (default 0 (minTeamSize opts)) v)
    as (mw & Hmw & Hobj & Hbase).
  { destruct Hm as [Hm|Hm].
    - pose proof (λ v, base_feasible_of_base studs caps opts m v Hm) as Hb.
      apply base_build_model_eq in Hm as (mw & Hmw & ->). by exists mw.
    - pose proof (λ v, base_feasible_of_ext studs caps opts m v Hm) as Hb.
      apply ext_build_model_eq in Hm as (mw & ? & ? & Hmw & ->). by exists mw. }
  apply max_weight_spec in Hmw as [Hub (sid & Hsid & Hatt)].
  assert (Z.of_nat (length ids) = Z.of_nat (length studs)) as Hlen
    by (unfold ids, student_ids; by rewrite length_fmap).
  exists mw. split_and!.
  - intros s Hs. apply Hub. unfold ids, student_ids. apply list_elem_of_fmap. by exists s.
  - unfold ids, student_ids in Hsid. apply list_elem_of_fmap in Hsid as (s & -> & Hs).
    by exists s.
  - unfold unassigned_penalty. by rewrite Hlen.
  - intros v. unfold objective_value. rewrite Hobj, eval_objective, Hlen.
    unfold ids, student_ids. by rewrite sumZ_fmap_fmap.
  - intros v1 v2 Hf1 Hf2 Hlt. unfold objective_value. rewrite Hobj.
    eapply more_assigned_scores_higher; [| done | by apply Hbase.. | done].
    intros sid' c Hs Hc. by apply sc_ranks_in_range.
Qed.

Lemma unassigned_penalty_dominates_witness :
  ∃ m, external_assign.build_model [Examples.ada; Examples.bob] {[ "p" := 1 ]}
         Examples.no_options = inr m
       ∧ objective_value m More_examples.nobody
         < objective_value m (rounded (Examples.ada_wins m)).
Proof.
  eexists. split; [reflexivity|].
  destruct (unassigned_penalty_dominates [Examples.ada; Examples.bob] {[ "p" := 1 ]}
              Examples.no_options _
              ltac:(apply (bool_decide_unpack _); vm_compute; reflexivity)
              (or_intror eq_refl)) as (mw & _ & _ & _ & _ & H).
  apply H.
  - apply (bool_decide_unpack _). vm_compute. reflexivity.
  - apply (bool_decide_unpack _). vm_compute. reflexivity.
  - vm_compute. lia.
Defined.

(** ** The section extension *)

Lemma ext_build_model_sections studs caps opts m :
  external_assign.build_model studs caps opts = inr m →
  sections (student_sections studs) ≠ ∅ →
  ∃ mw,
    m = {| m_vars := x_vars (student_ids studs) (student_choices studs)
                     ++ u_vars (student_ids studs) ++ y_vars caps
                     ++ w_vars (student_ids studs) (student_choices studs) (student_sections studs)
                     ++ z_vars (student_sections studs) caps;
           m_constrs := base_constrs (student_ids studs) (student_choices studs) caps
                          (default 0 (minTeamSize opts))
                        ++ section_constrs (student_ids studs) (student_choices studs)
                             (student_sections studs) caps
                             (default 1 (maxSectionsPerTeam opts));
           m_objective := objective (student_ids studs) (student_choices studs) mw |}.
Proof.
  unfold external_assign.build_model. intros Hm Hne.
  destruct (max_weight _ _) as [mw|]; [|done].
  rewrite bool_decide_eq_false_2 in Hm.
  - injection Hm as <-. by exists mw.
  - intros E. apply Hne. by apply leibniz_equiv, elements_empty_iff.
Qed.

Lemma count_le_sum {A} (f : A → Z) (P : A → Prop) `{!∀ a, Decision (P a)} (l : list A) :
  (∀ a, a ∈ l → 0 ≤ f a) → (∀ a, a ∈ l → P a → 1 ≤ f a) →
  Z.of_nat (length (filter P l)) ≤ sumZ (f <$> l).
Proof.
  induction l as [|a l IH]; intros Hnn H1; [done|].
  assert (Z.of_nat (length (filter P l)) ≤ sumZ (f <$> l)) as IH'.
  { apply IH; intros b Hb; [apply Hnn | apply H1]; by apply list_elem_of_further. }
  pose proof (Hnn a (list_elem_of_here _ _)).
  pose proof (H1 a (list_elem_of_here _ _)) as Ha.
  rewrite filter_cons, sumZ_cons_fmap.
  destruct (decide (P a)) as [q|nq]; [specialize (Ha q); rewrite length_cons|]; lia.
Qed.

Section Section_facts.
Context (ids : list string) (sc : gmap string (list choice_tuple))
        (ss : gmap string (list string)) (caps : gmap string Z) (msp : Z) (v : var → Z).
Hypothesis Hbin : Forall (binary v) (w_vars ids sc ss ++ z_vars ss caps).
Hypothesis Hcon : Forall (holds v) (section_constrs ids sc ss caps msp).

Lemma w_binary sid p sec : (sid, p, sec) ∈ w_keys ids sc ss → binary v (w_var sid p sec).
Proof.
  intros Hk. rewrite Forall_forall in Hbin. apply Hbin.
  apply elem_of_app. left. unfold w_vars. apply list_elem_of_fmap.
  by exists (sid, p, sec).
Qed.

Lemma z_binary p sec :
  p ∈ projects caps → sec ∈ elements (sections ss) → binary v (z_var p sec).
Proof.
  intros Hp Hsec. rewrite Forall_forall in Hbin. apply Hbin.
  apply elem_of_app. right. unfold z_vars, z_keys. apply list_elem_of_fmap.
  exists (p, sec). split; [done|].
  apply list_elem_of_bind. exists p. split; [|done].
  apply list_elem_of_bind. exists sec. split; [|done]. apply list_elem_of_here.
Qed.

Lemma link_z_holds p sec :
  p ∈ projects caps → sec ∈ elements (sections ss) →
  students_in_sec_and_want_project ids sc ss p sec ≠ [] →
  sumZ ((λ sid, v (w_var sid p sec)) <$> students_in_sec_and_want_project ids sc ss p sec)
  ≤ (caps !!! p) * v (z_var p sec).
Proof.
  intros Hp Hsec Hne. rewrite Forall_forall in Hcon.
  assert (link_z_constr ids sc ss caps p sec ∈ section_constrs ids sc ss caps msp) as Hin.
  { unfold section_constrs. apply elem_of_app. right. apply elem_of_app. left.
    apply list_elem_of_bind. exists p. split; [|done].
    apply list_elem_of_bind. exists sec. split; [|done].
    destruct (students_in_sec_and_want_project ids sc ss p sec); [done|].
    apply list_elem_of_here. }
  specialize (Hcon _ Hin). unfold holds, link_z_constr in Hcon. simpl in Hcon.
  rewrite eval_lin_scale, eval_lin_var, eval_quicksum_fmap in Hcon.
  etrans; [|exact Hcon]. apply Z.eq_le_incl, sumZ_eq.
  intros sid _. by rewrite eval_lin_var.
Qed.

Lemma max_sections_holds p :
  p ∈ projects caps →
  sumZ ((λ sec, v (z_var p sec)) <$> elements (sections ss)) ≤ msp * v (y_var p).
Proof.
  intros Hp. rewrite Forall_forall in Hcon.
  assert (max_sections_constr ss msp p ∈ section_constrs ids sc ss caps msp) as Hin.
  { unfold section_constrs. do 2 (apply elem_of_app; right).
    apply list_elem_of_fmap. by exists p. }
  specialize (Hcon _ Hin). unfold holds, max_sections_constr in Hcon. simpl in Hcon.
  rewrite eval_lin_scale, eval_lin_var, eval_quicksum_fmap in Hcon.
  etrans; [|exact Hcon]. apply Z.eq_le_incl, sumZ_eq.
  intros sec _. by rewrite eval_lin_var.
Qed.

(** A section through which a student is placed on [p] is marked used. *)
Lemma drawn_section_is_marked p sec sid :
  p ∈ projects caps → sec ∈ elements (sections ss) →
  sid ∈ ids → (sid, p, sec) ∈ w_keys ids sc ss → v (w_var sid p sec) = 1 →
  v (z_var p sec) = 1.
Proof.
  intros Hp Hsec Hsid Hk Hw.
  assert (sid ∈ students_in_sec_and_want_project ids sc ss p sec) as Hin
    by (unfold students_in_sec_and_want_project; by apply list_elem_of_filter).
  assert (students_in_sec_and_want_project ids sc ss p sec ≠ []) as Hne
    by (intros E; rewrite E in Hin; by apply elem_of_nil in Hin).
  pose proof (link_z_holds p sec Hp Hsec Hne) as Hlink.
  assert (1 ≤ sumZ ((λ sid, v (w_var sid p sec))
                      <$> students_in_sec_and_want_project ids sc ss p sec)) as Hge.
  { rewrite <- Hw.
    apply (sumZ_elem_le (λ sid, v (w_var sid p sec)) _ sid); [|done].
    intros b Hb. unfold students_in_sec_and_want_project in Hb.
    apply list_elem_of_filter in Hb as [Hb _].
    destruct (w_binary b p sec Hb) as [-> | ->]; lia. }
  destruct (z_binary p sec Hp Hsec) as [Hz|Hz]; [|done].
  rewrite Hz in Hlink. lia.
Qed.

Lemma sections_drawn_le p :
  p ∈ projects caps → v (y_var p) = 1 →
  Z.of_nat (sections_drawn v ids sc ss p) ≤ msp.
Proof.
  intros Hp Hy. pose proof (max_sections_holds p Hp) as Hmax. rewrite Hy in Hmax.
  unfold sections_drawn.
  etrans; [apply (count_le_sum (λ sec, v (z_var p sec)))|lia].
  - intros sec Hsec. destruct (z_binary p sec Hp Hsec) as [-> | ->]; lia.
  - intros sec Hsec (sid & Hsid & Hk & Hw)%Exists_exists.
    rewrite (drawn_section_is_marked p sec sid); done.
Qed.
End Section_facts.

(** C7. If some student declares a section, then in every feasible point of
    the model of [external_assign.py], every used project ([y_p = 1]) has
    students placed via at most [maxSectionsPerTeam] distinct sections, the
    bound being 1 when the option is absent. *)
Theorem sections_per_team_capped studs caps opts m v p :
  external_assign.build_model studs caps opts = inr m →
  sections (student_sections studs) ≠ ∅ →
  feasible m v → is_Some (caps !! p) → v (y_var p) = 1 →
  Z.of_nat (sections_drawn v (student_ids studs) (student_choices studs)
              (student_sections studs) p)
  ≤ default 1 (maxSectionsPerTeam opts).
Proof.
  intros Hm Hne [Hb Hc] Hp Hy.
  apply ext_build_model_sections in Hm as (mw & ->); [|done]. simpl in Hb, Hc.
  eapply sections_drawn_le; [| |by apply elem_of_projects|done].
  - by do 3 apply Forall_app in Hb as [_ Hb].
  - by apply Forall_app in Hc as [_ Hc].
Qed.

Lemma sections_per_team_capped_witness :
  ∃ m, external_assign.build_model [Section_examples.cy; Section_examples.dee]
         {[ "p" := 2 ]} Section_examples.one_section = inr m
       ∧ feasible m Section_examples.cy_via_A1
       ∧ Z.of_nat (sections_drawn Section_examples.cy_via_A1
                     (student_ids [Section_examples.cy; Section_examples.dee])
                     (student_choices [Section_examples.cy; Section_examples.dee])
                     (student_sections [Section_examples.cy; Section_examples.dee]) "p")
         ≤ 1.
Proof.
  eexists. split; [reflexivity|].
  split.
  - apply (bool_decide_unpack _). vm_compute. reflexivity.
  - apply (sections_per_team_capped [Section_examples.cy; Section_examples.dee]
             {[ "p" := 2 ]} Section_examples.one_section _ Section_examples.cy_via_A1 "p"
             eq_refl).
    + apply (bool_decide_unpack _). vm_compute. reflexivity.
    + apply (bool_decide_unpack _). vm_compute. reflexivity.
    + by eexists.
    + reflexivity.
Defined.

(** ** Raising a capacity *)



(** C8, counterexample to the claim as stated: one student ranks ["p"],
    [minTeamSize] is 4.  With capacity 1 the floor is switched off and the
    optimum is 1; with capacity 5 the floor of 4 cannot be met by one
    student, the project stays unused and the optimum drops to -2. *)
Lemma raising_capacity_can_lower_optimum :
  ∃ m1 m2 v1 v2,
    external_assign.build_model [Examples.ada] Monotonicity_examples.small_caps
      Examples.team_of_four = inr m1
    ∧ external_assign.build_model [Examples.ada] Monotonicity_examples.raised_caps
        Examples.team_of_four = inr m2
    ∧ assignment.build_model [Examples.ada] Monotonicity_examples.small_caps
        Examples.team_of_four = inr m1
    ∧ assignment.build_model [Examples.ada] Monotonicity_examples.raised_caps
        Examples.team_of_four = inr m2
    ∧ optimal m1 v1 ∧ optimal m2 v2
    ∧ objective_value m1 v1 = 1 ∧ objective_value m2 v2 = -2.
Proof.
  eexists _, _, Monotonicity_examples.ada_seated, More_examples.nobody.
  split; [vm_compute; reflexivity|].
  split; [vm_compute; reflexivity|].
  split; [vm_compute; reflexivity|].
  split; [vm_compute; reflexivity|].
  split_and!.
  - split; [apply (bool_decide_unpack _); vm_compute; reflexivity|].
    intros v' [Hb Hc]. unfold_semantics. split_Forall.
    cbv [Monotonicity_examples.ada_seated]. lia.
  - split; [apply (bool_decide_unpack _); vm_compute; reflexivity|].
    intros v' [Hb Hc]. unfold_semantics. split_Forall.
    cbv [More_examples.nobody]. lia.
  - reflexivity.
  - reflexivity.
Qed.

Section Raise_capacity.
Context (ids : list string) (sc : gmap string (list choice_tuple))
        (ss : gmap string (list string)) (caps : gmap string Z) (mc msp : Z)
        (p : string) (c c' : Z).
Hypothesis Hp : caps !! p = Some c.
Hypothesis Hle : c ≤ c'.
Hypothesis Hfloor : min_capacity mc c' = min_capacity mc c.

Lemma projects_raise q : q ∈ projects (<[p:=c']> caps) ↔ q ∈ projects caps.
Proof.
  rewrite !elem_of_projects. destruct (decide (p = q)) as [<-|NE].
  - rewrite lookup_insert_eq, Hp. split; by eexists.
  - by rewrite lookup_insert_ne.
Qed.

Lemma capacity_raise q (k : Z) :
  k = 0 ∨ k = 1 → (caps !!! q) * k ≤ (<[p:=c']> caps !!! q) * k.
Proof.
  intros Hk. destruct (decide (p = q)) as [<-|NE].
  - rewrite lookup_total_insert_eq, (lookup_total_correct _ _ _ Hp).
    destruct Hk as [-> | ->]; lia.
  - rewrite lookup_total_insert_ne by done. lia.
Qed.

Lemma floor_raise q :
  min_capacity mc (<[p:=c']> caps !!! q) = min_capacity mc (caps !!! q).
Proof.
  destruct (decide (p = q)) as [<-|NE].
  - by rewrite lookup_total_insert_eq, (lookup_total_correct _ _ _ Hp).
  - by rewrite lookup_total_insert_ne.
Qed.

Lemma base_feasible_raise v :
  base_feasible ids sc caps mc v → base_feasible ids sc (<[p:=c']> caps) mc v.
Proof.
  intros Hf. pose proof Hf as [Hb Hc]. rewrite Forall_forall in Hc. split.
  - apply Forall_app in Hb as [Hx Hb]. apply Forall_app in Hb as [Hu Hy].
    apply Forall_app. split; [done|]. apply Forall_app. split; [done|].
    apply Forall_forall. intros k (q & -> & Hq)%list_elem_of_fmap.
    apply projects_raise in Hq. by apply (y_binary ids sc caps mc v Hf).
  - apply Forall_forall. intros k Hk. unfold base_constrs in Hk.
    apply elem_of_app in Hk as [Hk|Hk].
    + apply Hc. apply elem_of_app. by left.
    + apply list_elem_of_bind in Hk as (q & Hk & Hq). apply projects_raise in Hq.
      pose proof (y_binary ids sc caps mc v Hf q Hq) as Hy.
      apply elem_of_cons in Hk as [->|Hk]; [|apply list_elem_of_singleton in Hk as ->].
      * pose proof (Hc _ (max_capacity_constr_in ids sc caps mc q Hq)) as H.
        unfold holds, max_capacity_constr in *. simpl in *.
        rewrite eval_lin_scale, eval_lin_var in *.
        etrans; [exact H|]. by apply capacity_raise.
      * pose proof (Hc _ (min_capacity_constr_in ids sc caps mc q Hq)) as H.
        unfold holds, min_capacity_constr in *. simpl in *.
        by rewrite floor_raise.
Qed.

Lemma section_feasible_raise v :
  Forall (binary v) (w_vars ids sc ss ++ z_vars ss caps) →
  Forall (holds v) (section_constrs ids sc ss caps msp) →
  Forall (binary v) (w_vars ids sc ss ++ z_vars ss (<[p:=c']> caps))
  ∧ Forall (holds v) (section_constrs ids sc ss (<[p:=c']> caps) msp).
Proof.
  intros Hb Hc. split.
  - pose proof Hb as Hb'. apply Forall_app in Hb' as [Hw _].
    apply Forall_app. split; [done|].
    apply Forall_forall. intros k ([q sec] & -> & Hk)%list_elem_of_fmap.
    unfold z_keys in Hk. apply list_elem_of_bind in Hk as (q' & Hk & Hq).
    apply list_elem_of_bind in Hk as (sec' & Hk & Hsec).
    apply list_elem_of_singleton in Hk as [= -> ->].
    apply projects_raise in Hq. by apply (z_binary ids sc ss caps v Hb).
  - rewrite Forall_forall in Hc.
    apply Forall_forall. intros k Hk. unfold section_constrs in Hk.
    apply elem_of_app in Hk as [Hk|Hk]; [|apply elem_of_app in Hk as [Hk|Hk]].
    + apply Hc. unfold section_constrs. apply elem_of_app. by left.
    + apply list_elem_of_bind in Hk as (q & Hk & Hq). apply projects_raise in Hq.
      apply list_elem_of_bind in Hk as (sec & Hk & Hsec).
      assert (∀ k', k' ∈ match students_in_sec_and_want_project ids sc ss q sec with
                         | [] => [no_students_z_constr q sec]
                         | _ :: _ => [link_z_constr ids sc ss caps q sec; z_y_constr q sec]
                         end → holds v k') as Hold.
      { intros k' Hk'. apply Hc. unfold section_constrs.
        apply elem_of_app. right. apply elem_of_app. left.
        apply list_elem_of_bind. exists q. split; [|done].
        apply list_elem_of_bind. exists sec. split; done. }
      destruct (students_in_sec_and_want_project ids sc ss q sec) as [|sid l] eqn:E.
      * by apply Hold.
      * apply elem_of_cons in Hk as [->|Hk]; [|apply Hold; by apply list_elem_of_further].
        pose proof (Hold _ (list_elem_of_here _ _)) as H.
        unfold holds, link_z_constr in *. simpl in *.
        rewrite eval_lin_scale, eval_lin_var in *. rewrite E in *.
        etrans; [exact H|]. apply capacity_raise. by apply (z_binary ids sc ss caps v Hb).
    + apply list_elem_of_fmap in Hk as (q & -> & Hq). apply projects_raise in Hq.
      apply Hc. unfold section_constrs. do 2 (apply elem_of_app; right).
      apply list_elem_of_fmap. by exists q.
Qed.
End Raise_capacity.

Lemma floor_unchanged mts c c' :
  c ≤ c' → mts < c ∨ c' ≤ mts ∨ mts = 0 → min_capacity mts c' = min_capacity mts c.
Proof. intros Hle H. rewrite !min_capacity_cases. repeat case_decide; lia. Qed.

Lemma base_feasible_raise_model studs caps opts p c c' m m' v :
  caps !! p = Some c → c ≤ c' →
  min_capacity (default 0 (minTeamSize opts)) c' = min_capacity (default 0 (minTeamSize opts)) c →
  assignment.build_model studs caps opts = inr m →
  assignment.build_model studs (<[p:=c']> caps) opts = inr m' →
  feasible m v → feasible m' v ∧ m_objective m' = m_objective m.
Proof.
  intros Hp Hle Hfl Hm Hm' Hf.
  pose proof (base_feasible_of_base _ _ _ _ _ Hm Hf) as Hbf.
  apply base_build_model_eq in Hm as (mw & Hmw & ->).
  apply base_build_model_eq in Hm' as (mw' & Hmw' & ->).
  assert (mw' = mw) as -> by congruence.
  split; [|done]. by apply (base_feasible_raise _ _ _ _ _ c c').
Qed.

Lemma ext_feasible_raise_model studs caps opts p c c' m m' v :
  caps !! p = Some c → c ≤ c' →
  min_capacity (default 0 (minTeamSize opts)) c' = min_capacity (default 0 (minTeamSize opts)) c →
  external_assign.build_model studs caps opts = inr m →
  external_assign.build_model studs (<[p:=c']> caps) opts = inr m' →
  feasible m v → feasible m' v ∧ m_objective m' = m_objective m.
Proof.
  intros Hp Hle Hfl Hm Hm' Hf.
  pose proof (base_feasible_of_ext _ _ _ _ _ Hm Hf) as Hbf.
  apply (base_feasible_raise _ _ _ _ p c c' Hp Hle Hfl) in Hbf as [Hbb Hbc].
  unfold external_assign.build_model in Hm, Hm'.
  destruct (max_weight _ _) as [mw|]; [|done].
  injection Hm as <-. injection Hm' as <-. split; [|done].
  destruct Hf as [Hb Hc]. simpl in Hb, Hc.
  destruct (negb _).
  - do 3 apply Forall_app in Hb as [_ Hb]. apply Forall_app in Hc as [_ Hc].
    destruct (section_feasible_raise _ _ _ _ _ p c c' Hp Hle v Hb Hc) as [Hsb Hsc].
    split; simpl.
    + apply Forall_app in Hbb as [Hx Hbb]. apply Forall_app in Hbb as [Hu Hy].
      apply Forall_app in Hsb as [Hw Hz].
      repeat (apply Forall_app; split); done.
    + apply Forall_app. by split.
  - split; simpl; by rewrite !app_nil_r.
Qed.

(** C8 (as the code has it). Raising the capacity of one project from [c] to
    [c' >= c], all else equal, never lowers the optimal objective value of the
    model of either script, provided the project's minimum-occupancy floor is
    the same before and after (that is, [minTeamSize] is below the old
    capacity, or at least the new one, or zero). *)
Theorem raising_capacity_keeps_optimum studs caps opts p c c' :
  caps !! p = Some c → c ≤ c' →
  min_capacity (default 0 (minTeamSize opts)) c' = min_capacity (default 0 (minTeamSize opts)) c →
  (∀ m m' v v',
     assignment.build_model studs caps opts = inr m →
     assignment.build_model studs (<[p:=c']> caps) opts = inr m' →
     optimal m v → optimal m' v' → objective_value m v ≤ objective_value m' v')
  ∧ (∀ m m' v v',
       external_assign.build_model studs caps opts = inr m →
       external_assign.build_model studs (<[p:=c']> caps) opts = inr m' →
       optimal m v → optimal m' v' → objective_value m v ≤ objective_value m' v').
Proof.
  intros Hp Hle Hfl. split; intros m m' v v' Hm Hm' [Hf _] [_ Hbest].
  - destruct (base_feasible_raise_model _ _ _ _ _ _ _ _ v Hp Hle Hfl Hm Hm' Hf) as [Hf' Hobj].
    specialize (Hbest v Hf'). unfold objective_value in *. by rewrite Hobj in *.
  - destruct (ext_feasible_raise_model _ _ _ _ _ _ _ _ v Hp Hle Hfl Hm Hm' Hf) as [Hf' Hobj].
    specialize (Hbest v Hf'). unfold objective_value in *. by rewrite Hobj in *.
Qed.

Lemma raising_capacity_keeps_optimum_witness :
  ∃ m m',
    assignment.build_model [Examples.ada] Monotonicity_examples.two_seats
      Monotonicity_examples.low_floor = inr m
    ∧ assignment.build_model [Examples.ada] (<[ "p" := 3 ]> Monotonicity_examples.two_seats)
        Monotonicity_examples.low_floor = inr m'
    ∧ objective_value m Monotonicity_examples.ada_seated
      ≤ objective_value m' Monotonicity_examples.ada_seated.
Proof.
  eexists _, _.
  split; [vm_compute; reflexivity|]. split; [vm_compute; reflexivity|].
  refine (proj1 (raising_capacity_keeps_optimum [Examples.ada] Monotonicity_examples.two_seats
                   Monotonicity_examples.low_floor "p" 2 3 _ _ _) _ _ _ _ _ _ _ _).
  - reflexivity.
  - lia.
  - reflexivity.
  - vm_compute; reflexivity.
  - vm_compute; reflexivity.
  - split; [apply (bool_decide_unpack _); vm_compute; reflexivity|].
    intros v' [Hb Hc]. unfold_semantics. split_Forall.
    cbv [Monotonicity_examples.ada_seated]. lia.
  - split; [apply (bool_decide_unpack _); vm_compute; reflexivity|].
    intros v' [Hb Hc]. unfold_semantics. split_Forall.
    cbv [Monotonicity_examples.ada_seated]. lia.
Defined.

(** ** The two scripts on rosters without sections *)

Lemma section_list_nil s :
  sectionId s = None ∧ default [] (sectionIds s) = [] → section_list s = [].
Proof.
  intros [H1 H2]. unfold section_list. rewrite H1.
  destruct (sectionIds s); simpl in *; by subst.
Qed.

Lemma sections_empty studs : sectionless studs → sections (student_sections studs) = ∅.
Proof.
  intros Hs. apply set_eq. intros sec. split; [|by intros ?%not_elem_of_empty].
  unfold sections. intros (X & HX & Hsec)%elem_of_union_list.
  apply list_elem_of_fmap in HX as ([sid secs] & -> & Hkv).
  apply elem_of_map_to_list in Hkv. unfold student_sections in Hkv.
  apply roster_dict_lookup in Hkv as [(s & Hin & _ & ->)|Hkv]; [|by rewrite lookup_empty in Hkv].
  unfold sectionless in Hs. rewrite Forall_forall in Hs.
  simpl in Hsec. rewrite (section_list_nil s (Hs s Hin)) in Hsec.
  by apply elem_of_list_to_set, elem_of_nil in Hsec.
Qed.

Lemma same_model_without_sections studs caps opts :
  sections (student_sections studs) = ∅ →
  external_assign.build_model studs caps opts = assignment.build_model studs caps opts.
Proof.
  intros He. unfold external_assign.build_model, assignment.build_model.
  rewrite He, elements_empty. simpl. by rewrite !app_nil_r.
Qed.

(** With a sound answer the defensive last branch of the extraction loop is
    never taken, so its reason string does not matter. *)
Lemma extract_student_sound inc1 inc2 ids sc caps mc r s :
  base_feasible ids sc caps mc (rounded r) → prefId s ∈ ids →
  extract_student inc1 sc r s = extract_student inc2 sc r s.
Proof.
  intros Hf Hs. unfold extract_student.
  destruct (List.find _ _) as [[[q nm] rk]|] eqn:Hfind; [done|].
  assert (gt_half (VarX r (u_var (prefId s))) = true) as ->; [|done].
  apply rounded_1.
  pose proof (exactly_one ids sc caps mc _ Hf (prefId s) Hs) as H1.
  rewrite (sumZ_eq _ (λ _, 0)), sumZ_const in H1; [lia|].
  intros c Hc. apply rounded_0. by apply (proj1 (find_none_iff _ _) Hfind c).
Qed.

Lemma extract_ext inc1 inc2 sc r (l : list student) :
  (∀ s, s ∈ l → extract_student inc1 sc r s = extract_student inc2 sc r s) →
  extract inc1 sc r l = extract inc2 sc r l.
Proof.
  intros Heq. rewrite !extract_spec.
  induction l as [|s l IH]; [done|].
  cbn [omap list_omap]. rewrite (Heq s (list_elem_of_here _ _)).
  assert (∀ s, s ∈ l → extract_student inc1 sc r s = extract_student inc2 sc r s) as Heq'
    by (intros; by apply Heq, list_elem_of_further).
  specialize (IH Heq'). injection IH as IH1 IH2.
  destruct (extract_student inc2 sc r s); cbn [keep_assigned keep_unassigned];
    by rewrite IH1, IH2.
Qed.

Lemma extract_sound inc1 inc2 caps mc r studs :
  base_feasible (student_ids studs) (student_choices studs) caps mc (rounded r) →
  extract inc1 (student_choices studs) r studs = extract inc2 (student_choices studs) r studs.
Proof.
  intros Hf. apply extract_ext. intros s Hs.
  eapply extract_student_sound; [done|].
  unfold student_ids. apply list_elem_of_fmap. by exists s.
Qed.

(** C10. When no student declares a primary or an additional section, the two
    scripts build the same model, and with any solver whose answer on that
    model is sound they return the same result. *)
Theorem scripts_agree_without_sections studs caps opts :
  sectionless studs →
  external_assign.build_model studs caps opts = assignment.build_model studs caps opts
  ∧ ∀ solve data,
      students data = Some studs → capacities data = Some caps → options data = Some opts →
      (∀ m, assignment.build_model studs caps opts = inr m → sound_on m (solve m)) →
      external_assign.assign solve data = assignment.assign solve data.
Proof.
  intros Hs. pose proof (same_model_without_sections studs caps opts (sections_empty studs Hs)) as Hm.
  split; [done|].
  intros solve data Hst Hc Ho Hsound.
  unfold external_assign.assign, assignment.assign. rewrite Hst, Hc, Ho, Hm.
  destruct (assignment.build_model studs caps opts) as [e|m] eqn:Hb; [done|].
  cbv zeta. destruct (accepted (Status (solve m))) eqn:Hacc; [|done].
  f_equal. eapply extract_sound.
  eapply base_feasible_of_base; [done|]. by apply Hsound.
Qed.

Lemma scripts_agree_without_sections_witness :
  external_assign.assign Examples.ada_wins Examples.scenario_A
  = assignment.assign Examples.ada_wins Examples.scenario_A.
Proof.
  refine (proj2 (scripts_agree_without_sections [Examples.ada; Examples.bob] {[ "p" := 1 ]}
                   Examples.no_options _) Examples.ada_wins Examples.scenario_A
            eq_refl eq_refl eq_refl _).
  - apply (bool_decide_unpack _). vm_compute. reflexivity.
  - intros m Hm _. vm_compute in Hm. injection Hm as <-.
    apply (bool_decide_unpack _). vm_compute. reflexivity.
Defined.

(** Without soundness the two scripts can be told apart: the reason strings
    of their defensive branch differ. *)
Remark defensive_reasons_differ :
  external_assign.assign Unsound_examples.all_zero Examples.scenario_A
  ≠ assignment.assign Unsound_examples.all_zero Examples.scenario_A.
Proof. vm_compute. discriminate. Qed.

(** ** Scenario A *)

Section Scenario_A_facts.
Import Scenario_A.
Context (s1 s2 : student) (p n1 n2 : string) (opts : options_doc).
Hypothesis Hids : prefId s1 ≠ prefId s2.
Hypothesis Hc1 : single_choice s1 p n1.
Hypothesis Hc2 : single_choice s2 p n2.

Let ids := student_ids [s1; s2].
Let sc := student_choices [s1; s2].
Let caps : gmap string Z := {[ p := 1 ]}.
Let mc := default 0 (minTeamSize opts).

Lemma scenario_sc1 : sc !!! prefId s1 = [(p, n1, 1)].
Proof.
  unfold sc, student_choices. simpl.
  rewrite lookup_total_insert_ne by done. rewrite lookup_total_insert_eq.
  unfold choice_tuples. by rewrite Hc1.
Qed.

Lemma scenario_sc2 : sc !!! prefId s2 = [(p, n2, 1)].
Proof.
  unfold sc, student_choices. simpl. rewrite lookup_total_insert_eq.
  unfold choice_tuples. by rewrite Hc2.
Qed.

Lemma scenario_max_weight : max_weight ids sc = Some 1.
Proof.
  unfold max_weight, ids, student_ids. rewrite !fmap_cons.
  by rewrite scenario_sc1, scenario_sc2.
Qed.

Lemma scenario_x_keys : x_keys ids sc = [(prefId s1, p); (prefId s2, p)].
Proof.
  unfold x_keys, ids, student_ids. rewrite !fmap_cons, !bind_cons.
  by rewrite scenario_sc1, scenario_sc2.
Qed.

Lemma scenario_projects : projects caps = [p].
Proof. unfold projects, caps. by rewrite map_to_list_singleton. Qed.

Lemma scenario_load v :
  eval v (project_load ids sc p) = v (x_var (prefId s1) p) + v (x_var (prefId s2) p).
Proof.
  unfold project_load. rewrite scenario_x_keys. unfold ids, student_ids.
  change (prefId <$> [s1; s2]) with [prefId s1; prefId s2].
  rewrite !filter_cons, filter_nil.
  rewrite decide_True by apply list_elem_of_here.
  rewrite decide_True by apply list_elem_of_further, list_elem_of_here.
  rewrite eval_quicksum_fmap. simpl. rewrite !eval_lin_var. lia.
Qed.

Lemma scenario_objective v :
  eval v (objective ids sc 1)
  = v (x_var (prefId s1) p) + v (x_var (prefId s2) p)
    - 3 * (v (u_var (prefId s1)) + v (u_var (prefId s2))).
Proof.
  rewrite eval_objective, eval_preference_score. unfold ids, student_ids.
  change (prefId <$> [s1; s2]) with [prefId s1; prefId s2].
  rewrite !sumZ_cons_fmap. fold sc. rewrite scenario_sc1, scenario_sc2.
  simpl. unfold proj_of. cbn [fst]. lia.
Qed.

Let v0 := seat_to (prefId s1) (prefId s2) p.

Lemma seat_to_binary k : binary v0 k.
Proof. unfold binary, v0, seat_to. case_decide; auto. Qed.

Lemma seat_to_values :
  v0 (x_var (prefId s1) p) = 1 ∧ v0 (x_var (prefId s2) p) = 0
  ∧ v0 (u_var (prefId s1)) = 0 ∧ v0 (u_var (prefId s2)) = 1
  ∧ v0 (y_var p) = 1.
Proof.
  unfold v0, seat_to. split_and!.
  - rewrite decide_True; auto.
  - rewrite decide_False; [done|]. intros [H|[H|H]]; congruence.
  - rewrite decide_False; [done|]. intros [H|[H|H]]; congruence.
  - rewrite decide_True; auto.
  - rewrite decide_True; auto.
Qed.

Lemma scenario_assign_lhs v :
  eval v (c_lhs (assign_constr sc (prefId s1)))
  = v (x_var (prefId s1) p) + v (u_var (prefId s1))
  ∧ eval v (c_lhs (assign_constr sc (prefId s2)))
    = v (x_var (prefId s2) p) + v (u_var (prefId s2)).
Proof.
  unfold assign_constr. simpl.
  rewrite !eval_lin_add, !eval_lin_var, !eval_quicksum_fmap.
  rewrite scenario_sc1, scenario_sc2. simpl. unfold proj_of. cbn [fst].
  rewrite !eval_lin_var. lia.
Qed.

Lemma scenario_floor_nonpos : min_capacity mc (caps !!! p) ≤ 0.
Proof.
  unfold caps. rewrite lookup_total_singleton_eq, min_capacity_cases.
  case_decide; lia.
Qed.

Lemma seat_to_feasible : base_feasible ids sc caps mc v0.
Proof.
  destruct seat_to_values as (Hx1 & Hx2 & Hu1 & Hu2 & Hy).
  split; [apply Forall_forall; intros k _; apply seat_to_binary|].
  unfold base_constrs. rewrite scenario_projects. unfold ids, student_ids.
  change (prefId <$> [s1; s2]) with [prefId s1; prefId s2].
  cbn [fmap list_fmap mbind list_bind app].
  destruct (scenario_assign_lhs v0) as [E1 E2].
  apply Forall_cons_2; [|apply Forall_cons_2; [|apply Forall_cons_2; [|apply Forall_cons_2; [|apply Forall_nil_2]]]].
  - unfold holds. cbn [c_sense assign_constr c_rhs]. rewrite E1, eval_lin_const. lia.
  - unfold holds. cbn [c_sense assign_constr c_rhs]. rewrite E2, eval_lin_const. lia.
  - unfold holds. cbn [c_sense max_capacity_constr c_rhs c_lhs].
    fold ids. rewrite scenario_load, eval_lin_scale, eval_lin_var.
    unfold caps. rewrite lookup_total_singleton_eq. lia.
  - unfold holds. cbn [c_sense min_capacity_constr c_rhs c_lhs].
    fold ids. rewrite scenario_load, eval_lin_scale, eval_lin_var.
    pose proof scenario_floor_nonpos. lia.
Qed.

(** What an optimal point of the scenario looks like. *)
Lemma scenario_optimal_point v :
  base_feasible ids sc caps mc v →
  eval v0 (objective ids sc 1) ≤ eval v (objective ids sc 1) →
  (v (x_var (prefId s1) p) = 1 ∧ v (x_var (prefId s2) p) = 0 ∧ v (u_var (prefId s2)) = 1)
  ∨ (v (x_var (prefId s1) p) = 0 ∧ v (x_var (prefId s2) p) = 1 ∧ v (u_var (prefId s1)) = 1).
Proof.
  intros Hf Hopt.
  destruct seat_to_values as (Hx1 & Hx2 & Hu1 & Hu2 & Hy).
  rewrite !scenario_objective, Hx1, Hx2, Hu1, Hu2 in Hopt.
  assert (prefId s1 ∈ ids) as Hi1 by apply list_elem_of_here.
  assert (prefId s2 ∈ ids) as Hi2 by apply list_elem_of_further, list_elem_of_here.
  assert (p ∈ projects caps) as Hp by (rewrite scenario_projects; apply list_elem_of_here).
  pose proof (exactly_one ids sc caps mc v Hf _ Hi1) as E1.
  pose proof (exactly_one ids sc caps mc v Hf _ Hi2) as E2.
  rewrite scenario_sc1 in E1. rewrite scenario_sc2 in E2.
  simpl in E1, E2. unfold proj_of in E1, E2. cbn [fst] in E1, E2.
  pose proof (capacity_ceiling ids sc caps mc v Hf p Hp) as Hcap.
  rewrite <- eval_project_load, scenario_load in Hcap.
  unfold caps in Hcap. rewrite lookup_total_singleton_eq in Hcap.
  assert ((prefId s1, p) ∈ x_keys ids sc) as K1
    by (rewrite scenario_x_keys; apply list_elem_of_here).
  assert ((prefId s2, p) ∈ x_keys ids sc) as K2
    by (rewrite scenario_x_keys; apply list_elem_of_further, list_elem_of_here).
  destruct (x_binary_key ids sc caps mc v Hf _ _ K1) as [B1|B1];
    destruct (x_binary_key ids sc caps mc v Hf _ _ K2) as [B2|B2];
    destruct (u_binary ids sc caps mc v Hf _ Hi1) as [C1|C1];
    destruct (u_binary ids sc caps mc v Hf _ Hi2) as [C2|C2];
    destruct (y_binary ids sc caps mc v Hf p Hp) as [D|D]; lia.
Qed.

Lemma scenario_extract inc r :
  base_feasible ids sc caps mc (rounded r) →
  eval v0 (objective ids sc 1) ≤ eval (rounded r) (objective ids sc 1) →
  extract inc sc r [s1; s2] = outcome s1 p n1 s2 no_capacity_reason (ObjVal r)
  ∨ extract inc sc r [s1; s2] = outcome s2 p n2 s1 no_capacity_reason (ObjVal r).
Proof.
  intros Hf Hopt.
  destruct (scenario_optimal_point _ Hf Hopt) as [(X1 & X2 & U)|(X1 & X2 & U)].
  - left. apply rounded_1 in X1, U. apply rounded_0 in X2.
    unfold extract, extract_student. cbn [foldl].
    rewrite scenario_sc1, scenario_sc2. cbn [List.find].
    unfold proj_of. cbn [fst]. rewrite X1, X2, U. reflexivity.
  - right. apply rounded_1 in X2, U. apply rounded_0 in X1.
    unfold extract, extract_student. cbn [foldl].
    rewrite scenario_sc1, scenario_sc2. cbn [List.find].
    unfold proj_of. cbn [fst]. rewrite X1, X2, U. reflexivity.
Qed.

Lemma scenario_result inc m r :
  assignment.build_model [s1; s2] caps opts = inr m → optimal_solve m r →
  accepted (Status r) = true
  ∧ (extract inc sc r [s1; s2] = outcome s1 p n1 s2 no_capacity_reason (ObjVal r)
     ∨ extract inc sc r [s1; s2] = outcome s2 p n2 s1 no_capacity_reason (ObjVal r)).
Proof.
  intros Hm (Hst & Hf & Hbest).
  pose proof (base_feasible_of_base _ _ _ _ _ Hm Hf) as Hbf.
  apply base_build_model_eq in Hm as (mw & Hmw & ->).
  fold ids sc in Hmw. rewrite scenario_max_weight in Hmw. injection Hmw as <-.
  split; [by rewrite Hst|].
  apply scenario_extract; [done|].
  apply (Hbest v0). destruct seat_to_feasible as [Hb Hc]. by split.
Qed.
End Scenario_A_facts.

(** C9 (as the code has it). Two students with different identifiers each
    rank the one project [p] of capacity 1 first and have no other choice and
    no section.  After an optimal solve both scripts return a document with
    exactly one of the two in [assigned], at rank 1 on [p], and the other in
    [unassigned] with the reason "No available capacity for ranked choices"
    (capital N). *)
Theorem scenario_A_one_seat s1 s2 p n1 n2 opts solve :
  prefId s1 ≠ prefId s2 →
  Scenario_A.single_choice s1 p n1 → Scenario_A.single_choice s2 p n2 →
  sectionless [s1; s2] →
  let data := {| students := Some [s1; s2]; capacities := Some {[ p := 1 ]};
                 options := Some opts |} in
  let reason := "No available capacity for ranked choices" in
  (∀ m, assignment.build_model [s1; s2] {[ p := 1 ]} opts = inr m →
        optimal_solve m (solve m) →
        assignment.assign solve data
        = inr (Scenario_A.outcome s1 p n1 s2 reason (ObjVal (solve m)))
        ∨ assignment.assign solve data
          = inr (Scenario_A.outcome s2 p n2 s1 reason (ObjVal (solve m))))
  ∧ (∀ m, external_assign.build_model [s1; s2] {[ p := 1 ]} opts = inr m →
          optimal_solve m (solve m) →
          external_assign.assign solve data
          = inr (Scenario_A.outcome s1 p n1 s2 reason (ObjVal (solve m)))
          ∨ external_assign.assign solve data
            = inr (Scenario_A.outcome s2 p n2 s1 reason (ObjVal (solve m)))).
Proof.
  intros Hids Hc1 Hc2 Hsec data reason. split; intros m Hm Hopt.
  - destruct (scenario_result s1 s2 p n1 n2 opts Hids Hc1 Hc2
                assignment.inconsistent_reason m (solve m) Hm Hopt) as [Hacc Hex].
    unfold assignment.assign, data. cbn [students capacities options].
    rewrite Hm. cbv zeta. rewrite Hacc.
    destruct Hex as [-> | ->]; [by left | by right].
  - rewrite (same_model_without_sections _ _ _ (sections_empty _ Hsec)) in Hm.
    destruct (scenario_result s1 s2 p n1 n2 opts Hids Hc1 Hc2
                external_assign.inconsistent_reason m (solve m) Hm Hopt) as [Hacc Hex].
    unfold external_assign.assign, data. cbn [students capacities options].
    rewrite (same_model_without_sections _ _ _ (sections_empty _ Hsec)), Hm.
    cbv zeta. rewrite Hacc.
    destruct Hex as [-> | ->]; [by left | by right].
Qed.


Lemma ada_wins_is_optimal m :
  assignment.build_model [Examples.ada; Examples.bob] {[ "p" := 1 ]} Examples.no_options = inr m →
  optimal_solve m (Examples.ada_wins m).
Proof.
  intros Hm. vm_compute in Hm. injection Hm as <-.
  split; [reflexivity|]. split.
  - apply (bool_decide_unpack _). vm_compute. reflexivity.
  - intros v' [Hb Hc]. unfold_semantics. split_Forall.
    eval_rounded. lia.
Qed.

Lemma scenario_A_one_seat_witness :
  external_assign.assign Examples.ada_wins Examples.scenario_A
  = inr (Scenario_A.outcome Examples.ada "p" "Project p" Examples.bob
           "No available capacity for ranked choices" (-2)%Q)
  ∨ external_assign.assign Examples.ada_wins Examples.scenario_A
    = inr (Scenario_A.outcome Examples.bob "p" "Project p" Examples.ada
             "No available capacity for ranked choices" (-2)%Q).
Proof.
  refine (proj2 (scenario_A_one_seat Examples.ada Examples.bob "p" "Project p" "Project p"
                   Examples.no_options Examples.ada_wins _ _ _ _) _ _ _).
  - discriminate.
  - reflexivity.
  - reflexivity.
  - apply (bool_decide_unpack _). vm_compute. reflexivity.
  - vm_compute. reflexivity.
  - apply ada_wins_is_optimal. vm_compute. reflexivity.
Defined.

(** C9, counterexample to the claim as stated: after an optimal solve of
    scenario A the loser's reason is not the lower-case string of the
    claim. *)
Lemma scenario_A_reason_is_capitalised :
  ∃ m out,
    external_assign.build_model [Examples.ada; Examples.bob] {[ "p" := 1 ]}
      Examples.no_options = inr m
    ∧ optimal_solve m (Examples.ada_wins m)
    ∧ external_assign.assign Examples.ada_wins Examples.scenario_A = inr out
    ∧ assignment.assign Examples.ada_wins Examples.scenario_A = inr out
    ∧ (n_prefId <$> unassigned out) = ["s2"]
    ∧ ∀ n, n ∈ unassigned out → n_reason n ≠ "no available capacity for ranked choices".
Proof.
  eexists _, _. split; [vm_compute; reflexivity|].
  split; [apply ada_wins_is_optimal; vm_compute; reflexivity|].
  split; [vm_compute; reflexivity|].
  split; [vm_compute; reflexivity|].
  split; [reflexivity|].
  intros n Hn. apply list_elem_of_singleton in Hn as ->. discriminate.
Qed.

(** * Further properties of the two scripts *)

(** ** The model always has a feasible point *)

Lemma sumZ_zero {A} (f : A → Z) (l : list A) :
  (∀ a, a ∈ l → f a = 0) → sumZ (f <$> l) = 0.
Proof.
  intros H. rewrite (sumZ_eq f (λ _, 0) l H), sumZ_const. lia.
Qed.

Lemma nobody_binary k : binary More_examples.nobody k.
Proof. unfold binary. destruct k; simpl; auto. Qed.

Lemma nobody_base_feasible ids sc caps mc :
  base_feasible ids sc caps mc More_examples.nobody.
Proof.
  split; [apply Forall_forall; intros k _; apply nobody_binary|].
  apply Forall_forall. intros k Hk. unfold base_constrs in Hk.
  apply elem_of_app in Hk as [Hk|Hk].
  - apply list_elem_of_fmap in Hk as (sid & -> & _).
    unfold holds, assign_constr. simpl.
    rewrite eval_lin_add, eval_lin_var, eval_lin_const, eval_quicksum_fmap.
    rewrite sumZ_zero; [done|]. intros c _. by rewrite eval_lin_var.
  - apply list_elem_of_bind in Hk as (q & Hk & _).
    assert (eval More_examples.nobody (project_load ids sc q) = 0) as Hload.
    { unfold project_load. rewrite eval_quicksum_fmap.
      apply sumZ_zero. intros sid _. by rewrite eval_lin_var. }
    apply elem_of_cons in Hk as [->|Hk]; [|apply list_elem_of_singleton in Hk as ->].
    + unfold holds, max_capacity_constr. simpl.
      rewrite Hload, eval_lin_scale, eval_lin_var. simpl. lia.
    + unfold holds, min_capacity_constr. simpl.
      rewrite Hload, eval_lin_scale, eval_lin_var. simpl. lia.
Qed.

Lemma nobody_section_feasible ids sc ss caps msp :
  Forall (holds More_examples.nobody) (section_constrs ids sc ss caps msp).
Proof.
  apply Forall_forall. intros k Hk. unfold section_constrs in Hk.
  apply elem_of_app in Hk as [Hk|Hk]; [|apply elem_of_app in Hk as [Hk|Hk]].
  - apply list_elem_of_bind in Hk as (sid & Hk & _).
    apply list_elem_of_fmap in Hk as (c & -> & _).
    unfold holds, link_x_w_constr. simpl.
    rewrite eval_lin_var, eval_quicksum_fmap.
    apply sumZ_zero. intros sec _. by rewrite eval_lin_var.
  - apply list_elem_of_bind in Hk as (q & Hk & _).
    apply list_elem_of_bind in Hk as (sec & Hk & _).
    destruct (students_in_sec_and_want_project ids sc ss q sec) as [|sid l] eqn:E.
    + apply list_elem_of_singleton in Hk as ->. unfold holds. simpl.
      by rewrite eval_lin_var, eval_lin_const.
    + apply elem_of_cons in Hk as [->|Hk]; [|apply list_elem_of_singleton in Hk as ->].
      * unfold holds, link_z_constr. simpl.
        rewrite eval_lin_scale, eval_lin_var, eval_quicksum_fmap.
        rewrite sumZ_zero; [simpl; lia|]. intros s _. by rewrite eval_lin_var.
      * unfold holds. simpl. by rewrite !eval_lin_var.
  - apply list_elem_of_fmap in Hk as (q & -> & _).
    unfold holds, max_sections_constr. simpl.
    rewrite eval_lin_scale, eval_lin_var, eval_quicksum_fmap.
    rewrite sumZ_zero; [simpl; lia|]. intros s _. by rewrite eval_lin_var.
Qed.

(** X1. Whatever the input, the point that marks every student unassigned
    and uses no project is feasible for the model of either script, with
    objective value [-(n * (n * mw + 1))] for [n] roster entries: the model
    handed to the solver is never infeasible. *)
Theorem all_unassigned_is_feasible studs caps opts m :
  assignment.build_model studs caps opts = inr m
  ∨ external_assign.build_model studs caps opts = inr m →
  feasible m More_examples.nobody
  ∧ ∃ mw, max_weight (student_ids studs) (student_choices studs) = Some mw
          ∧ objective_value m More_examples.nobody
            = - (Z.of_nat (length studs) * (Z.of_nat (length studs) * mw + 1)).
Proof.
  intros Hm.
  assert (∀ ids sc mw, eval More_examples.nobody (objective ids sc mw)
                       = - (Z.of_nat (length ids) * (Z.of_nat (length ids) * mw + 1))) as Hobj.
  { intros ids sc mw. rewrite eval_objective, eval_preference_score.
    rewrite sumZ_zero.
    - rewrite (sumZ_eq _ (λ _, 1)), sumZ_const by done. lia.
    - intros sid _. apply sumZ_zero. intros c _. simpl. lia. }
  assert (Z.of_nat (length (student_ids studs)) = Z.of_nat (length studs)) as Hlen
    by (unfold student_ids; by rewrite length_fmap).
  destruct Hm as [Hm|Hm].
  - apply base_build_model_eq in Hm as (mw & Hmw & ->). split.
    + apply nobody_base_feasible.
    + exists mw. split; [done|]. unfold objective_value. simpl. by rewrite Hobj, Hlen.
  - unfold external_assign.build_model in Hm.
    destruct (max_weight _ _) as [mw|] eqn:Hmw; [|done]. injection Hm as <-. split.
    + destruct (nobody_base_feasible (student_ids studs) (student_choices studs) caps
                  (default 0 (minTeamSize opts))) as [Hb Hc].
      split; simpl.
      * apply Forall_forall. intros k _. apply nobody_binary.
      * apply Forall_app. split; [done|]. destruct (negb _); [|done].
        apply nobody_section_feasible.
    + exists mw. split; [done|]. unfold objective_value. simpl. by rewrite Hobj, Hlen.
Qed.

Lemma all_unassigned_is_feasible_witness :
  ∃ m, external_assign.build_model [Section_examples.cy; Section_examples.dee]
         {[ "p" := 2 ]} Section_examples.one_section = inr m
       ∧ feasible m More_examples.nobody
       ∧ objective_value m More_examples.nobody = -6.
Proof.
  eexists. split; [reflexivity|].
  destruct (all_unassigned_is_feasible [Section_examples.cy; Section_examples.dee]
              {[ "p" := 2 ]} Section_examples.one_section _ (or_intror eq_refl))
    as (Hf & _).
  split; [exact Hf | reflexivity].
Defined.

(** ** Used projects and the occupancy floor *)

Lemma count_ones_eq_sum {A} (f : A → Z) (Q : A → Prop) `{!∀ a, Decision (Q a)} (l : list A) :
  (∀ a, a ∈ l → Q a → f a = 0 ∨ f a = 1) →
  Z.of_nat (length (filter (λ a, Q a ∧ f a = 1) l)) = sumZ (f <$> filter Q l).
Proof.
  induction l as [|a l IH]; intros Hb; [done|].
  assert (Z.of_nat (length (filter (λ a, Q a ∧ f a = 1) l)) = sumZ (f <$> filter Q l)) as IH'.
  { apply IH. intros b Hb'. apply Hb. by apply list_elem_of_further. }
  pose proof (Hb a (list_elem_of_here _ _)) as Ha.
  rewrite !filter_cons.
  destruct (decide (Q a)) as [q|nq].
  - rewrite sumZ_cons_fmap. specialize (Ha q).
    destruct (decide (Q a ∧ f a = 1)) as [[_ E]|N]; [rewrite length_cons; lia|].
    destruct Ha as [E|E]; [lia|]. exfalso. by apply N.
  - destruct (decide (Q a ∧ f a = 1)) as [[q _]|_]; [done | lia].
Qed.

Lemma students_on_is_load ids sc caps mc v p :
  base_feasible ids sc caps mc v →
  Z.of_nat (students_on v ids sc p) = eval v (project_load ids sc p).
Proof.
  intros Hf. rewrite (eval_project_load ids sc v). unfold students_on.
  apply (count_ones_eq_sum (λ sid, v (x_var sid p))).
  intros sid _ Hk. by apply (x_binary_key ids sc caps mc v Hf).
Qed.

(** X2. In every feasible point of the model of either script, a project
    that is not marked used holds no student, and a project that holds at
    least one student is marked used and, when [minTeamSize] is below its
    capacity, holds at least [minTeamSize] students. *)
Theorem seated_project_meets_floor studs caps opts m v p c :
  assignment.build_model studs caps opts = inr m
  ∨ external_assign.build_model studs caps opts = inr m →
  feasible m v → caps !! p = Some c →
  let n := students_on v (student_ids studs) (student_choices studs) p in
  (v (y_var p) = 0 → n = 0%nat)
  ∧ ((0 < n)%nat →
     v (y_var p) = 1
     ∧ (default 0 (minTeamSize opts) < c → default 0 (minTeamSize opts) ≤ Z.of_nat n)).
Proof.
  intros Hm Hf Hc n.
  assert (base_feasible (student_ids studs) (student_choices studs) caps
            (default 0 (minTeamSize opts)) v) as Hbf.
  { destruct Hm as [Hm|Hm];
      [by eapply base_feasible_of_base | by eapply base_feasible_of_ext]. }
  assert (p ∈ projects caps) as Hp by (apply elem_of_projects; by eexists).
  pose proof (students_on_is_load _ _ _ _ v p Hbf) as Hn. fold n in Hn.
  pose proof (capacity_ceiling _ _ _ _ v Hbf p Hp) as Hcap.
  pose proof (occupancy_floor _ _ _ _ v Hbf p Hp) as Hfl.
  rewrite <- eval_project_load, <- Hn in Hcap, Hfl.
  rewrite (lookup_total_correct _ _ _ Hc) in Hcap, Hfl.
  rewrite min_capacity_cases in Hfl.
  destruct (y_binary _ _ _ _ v Hbf p Hp) as [Hy|Hy]; rewrite Hy in *.
  - split; [lia|]. intros Hpos. lia.
  - split; [done|]. intros Hpos. split; [done|]. intros Hlt.
    rewrite decide_True in Hfl by done. lia.
Qed.

Lemma seated_project_meets_floor_witness :
  ∃ m, external_assign.build_model [Section_examples.cy; Section_examples.dee]
         {[ "p" := 2 ]} Section_examples.one_section = inr m
       ∧ Section_examples.cy_via_A1 (y_var "p") = 1.
Proof.
  eexists. split; [reflexivity|].
  refine (proj1 (proj2 (seated_project_meets_floor
                          [Section_examples.cy; Section_examples.dee] {[ "p" := 2 ]}
                          Section_examples.one_section _ Section_examples.cy_via_A1 "p" 2
                          (or_intror eq_refl) _ _) _)).
  - apply (bool_decide_unpack _). vm_compute. reflexivity.
  - reflexivity.
  - vm_compute. lia.
Defined.

(** ** A project ranked twice by the same student *)

Lemma sumZ_filter_le {A} (f : A → Z) (P : A → Prop) `{!∀ a, Decision (P a)} (l : list A) :
  (∀ a, a ∈ l → 0 ≤ f a) → sumZ (f <$> filter P l) ≤ sumZ (f <$> l).
Proof.
  induction l as [|a l IH]; intros Hnn; [done|].
  assert (sumZ (f <$> filter P l) ≤ sumZ (f <$> l)) as IH'
    by (apply IH; intros b Hb; by apply Hnn, list_elem_of_further).
  pose proof (Hnn a (list_elem_of_here _ _)).
  rewrite filter_cons. destruct (decide (P a)); rewrite !sumZ_cons_fmap; lia.
Qed.

(** If a value [k] is attained at least twice by a non-negative function on
    a list, the sum over the list is at least [2 * k]. *)
Lemma twice_in_sum {A} (f : A → Z) (P : A → Prop) `{!∀ a, Decision (P a)} (l : list A) k :
  (∀ a, a ∈ l → 0 ≤ f a) → (∀ a, a ∈ l → P a → f a = k) → 0 ≤ k →
  (2 ≤ length (filter P l))%nat → 2 * k ≤ sumZ (f <$> l).
Proof.
  intros Hnn Hk Hk0 H2.
  etrans; [|by apply (sumZ_filter_le f P)].
  rewrite (sumZ_eq f (λ _, k)).
  - rewrite sumZ_const. nia.
  - intros a Ha. apply list_elem_of_filter in Ha as [HP Ha]. by apply Hk.
Qed.

(** X3. If a student's choice list names project [q] twice or more, no
    feasible point of either model gives that student a seat of [q]: the
    exactly-one constraint counts the single variable [x[(s, q)]] once per
    occurrence. *)
Theorem twice_ranked_project_is_never_assigned studs caps opts m v sid q :
  assignment.build_model studs caps opts = inr m
  ∨ external_assign.build_model studs caps opts = inr m →
  feasible m v → sid ∈ student_ids studs →
  (2 ≤ times_chosen q (student_choices studs !!! sid))%nat →
  v (x_var sid q) = 0.
Proof.
  intros Hm Hf Hsid H2.
  assert (base_feasible (student_ids studs) (student_choices studs) caps
            (default 0 (minTeamSize opts)) v) as Hbf.
  { destruct Hm as [Hm|Hm];
      [by eapply base_feasible_of_base | by eapply base_feasible_of_ext]. }
  set (cs := student_choices studs !!! sid) in *.
  assert (∀ c, c ∈ cs → v (x_var sid (proj_of c)) = 0 ∨ v (x_var sid (proj_of c)) = 1) as Hb
    by (intros c Hc; by apply (x_binary _ _ _ _ v Hbf)).
  assert (∃ c, c ∈ cs ∧ proj_of c = q) as (c0 & Hc0 & Hq0).
  { unfold times_chosen in H2.
    destruct (filter (λ c, proj_of c = q) cs) as [|c l] eqn:E; [simpl in H2; lia|].
    assert (c ∈ filter (λ c, proj_of c = q) cs) as Hin by (rewrite E; apply list_elem_of_here).
    apply list_elem_of_filter in Hin as [? ?]. by exists c. }
  pose proof (Hb c0 Hc0) as Hbq. rewrite Hq0 in Hbq.
  destruct Hbq as [Hz|Hone]; [done|]. exfalso.
  pose proof (exactly_one _ _ _ _ v Hbf sid Hsid) as E1. fold cs in E1.
  pose proof (twice_in_sum (λ c, v (x_var sid (proj_of c))) (λ c, proj_of c = q) cs 1) as Htw.
  assert (2 * 1 ≤ sumZ ((λ c, v (x_var sid (proj_of c))) <$> cs)) as Hge.
  { apply Htw; [| |lia|exact H2].
    - intros c Hc. destruct (Hb c Hc) as [-> | ->]; lia.
    - intros c _ ->. exact Hone. }
  destruct (u_binary _ _ _ _ v Hbf sid Hsid) as [Hu|Hu]; lia.
Qed.

Lemma twice_ranked_project_is_never_assigned_witness :
  ∃ m, assignment.build_model [Edge_examples.fan] {[ "p" := 3 ]} Examples.no_options = inr m
       ∧ feasible m More_examples.nobody
       ∧ More_examples.nobody (x_var "s1" "p") = 0.
Proof.
  eexists. split; [reflexivity|].
  split; [apply (bool_decide_unpack _); vm_compute; reflexivity|].
  refine (twice_ranked_project_is_never_assigned [Edge_examples.fan] {[ "p" := 3 ]}
            Examples.no_options _ More_examples.nobody "s1" "p" (or_introl eq_refl) _ _ _).
  - apply (bool_decide_unpack _). vm_compute. reflexivity.
  - apply list_elem_of_here.
  - vm_compute. lia.
Defined.

(** ** An optimal point seats as many students as can be seated *)

(** X4. When every rank lies between 1 and the length of its own list, an
    optimal point of the model of either script seats at least as many
    students as any feasible point; in particular, if some feasible point
    seats everybody, so does every optimal one. *)
Theorem optimum_seats_as_many_as_possible studs caps opts m v v' :
  ranks_in_range studs →
  assignment.build_model studs caps opts = inr m
  ∨ external_assign.build_model studs caps opts = inr m →
  optimal m v → feasible m v' →
  (assigned_count (student_ids studs) (student_choices studs) v'
   ≤ assigned_count (student_ids studs) (student_choices studs) v)%nat.
Proof.
  intros Hr Hm [Hf Hbest] Hf'.
  set (ids := student_ids studs). set (sc := student_choices studs).
  assert (∃ mw, max_weight ids sc = Some mw ∧ m_objective m = objective ids sc mw
                ∧ ∀ v, feasible m v → base_feasible ids sc caps (default 0 (minTeamSize opts)) v)
    as (mw & Hmw & Hobj & Hbase).
  { destruct Hm as [Hm|Hm].
    - pose proof (λ v, base_feasible_of_base studs caps opts m v Hm) as Hb.
      apply base_build_model_eq in Hm as (mw & Hmw & ->). by exists mw.
    - pose proof (λ v, base_feasible_of_ext studs caps opts m v Hm) as Hb.
      apply ext_build_model_eq in Hm as (mw & ? & ? & Hmw & ->). by exists mw. }
  apply max_weight_spec in Hmw as [Hub _].
  destruct (decide (assigned_count ids sc v' ≤ assigned_count ids sc v)%nat) as [|Hlt]; [done|].
  exfalso. specialize (Hbest v' Hf'). unfold objective_value in Hbest. rewrite Hobj in Hbest.
  assert (eval v (objective ids sc mw) < eval v' (objective ids sc mw)); [|lia].
  eapply more_assigned_scores_higher; [| done | by apply Hbase.. | lia].
  intros sid c Hs Hc. by apply sc_ranks_in_range.
Qed.

Lemma optimum_seats_as_many_as_possible_witness :
  ∃ m, assignment.build_model [Examples.ada; Examples.bob] {[ "p" := 1 ]} Examples.no_options
       = inr m
       ∧ (assigned_count ["s1"; "s2"] (student_choices [Examples.ada; Examples.bob])
            More_examples.nobody
          ≤ assigned_count ["s1"; "s2"] (student_choices [Examples.ada; Examples.bob])
              (rounded (Examples.ada_wins m)))%nat.
Proof.
  eexists. split; [reflexivity|].
  refine (optimum_seats_as_many_as_possible [Examples.ada; Examples.bob] {[ "p" := 1 ]}
            Examples.no_options _ _ More_examples.nobody _ (or_introl eq_refl) _ _).
  - apply (bool_decide_unpack _). vm_compute. reflexivity.
  - apply (ada_wins_is_optimal _ eq_refl).
  - apply (bool_decide_unpack _). vm_compute. reflexivity.
Defined.

(** ** Students that the section extension shuts out *)

Lemma elem_of_w_keys ids sc ss sid p sec :
  (sid, p, sec) ∈ w_keys ids sc ss
  ↔ sid ∈ ids ∧ (∃ c, c ∈ sc !!! sid ∧ proj_of c = p) ∧ sec ∈ ss !!! sid.
Proof.
  unfold w_keys. rewrite list_elem_of_bind. split.
  - intros (sid' & H & Hin). apply list_elem_of_bind in H as (c & H & Hc).
    apply list_elem_of_bind in H as (sec' & H & Hsec).
    apply list_elem_of_singleton in H as [= -> -> ->]. eauto.
  - intros (Hin & (c & Hc & <-) & Hsec). exists sid. split; [|done].
    apply list_elem_of_bind. exists c. split; [|done].
    apply list_elem_of_bind. exists sec. split; [|done]. apply list_elem_of_here.
Qed.

Lemma link_x_w_holds ids sc ss caps msp v sid c :
  Forall (holds v) (section_constrs ids sc ss caps msp) →
  sid ∈ ids → c ∈ sc !!! sid →
  sumZ ((λ sec, v (w_var sid (proj_of c) sec)) <$> ss !!! sid) = v (x_var sid (proj_of c)).
Proof.
  intros Hc Hsid Hin. rewrite Forall_forall in Hc.
  assert (link_x_w_constr ss sid (proj_of c) ∈ section_constrs ids sc ss caps msp) as Hk.
  { unfold section_constrs. apply elem_of_app. left.
    apply list_elem_of_bind. exists sid. split; [|done].
    apply list_elem_of_fmap. by exists c. }
  specialize (Hc _ Hk). unfold holds, link_x_w_constr in Hc. simpl in Hc.
  rewrite eval_lin_var, eval_quicksum_fmap in Hc. rewrite <- Hc.
  apply sumZ_eq. intros sec _. by rewrite eval_lin_var.
Qed.

(** X5. Once some student declares a section, a student whose flattened
    section list is empty, or lists each of its sections twice or more (a
    primary section repeated among the additional ones), is unassigned in
    every feasible point of the model of [external_assign.py]. *)
Theorem repeated_sections_shut_student_out studs caps opts m v sid :
  external_assign.build_model studs caps opts = inr m →
  sections (student_sections studs) ≠ ∅ →
  feasible m v → sid ∈ student_ids studs →
  (∀ sec, sec ∈ student_sections studs !!! sid →
          (2 ≤ times_listed sec (student_sections studs !!! sid))%nat) →
  v (u_var sid) = 1
  ∧ ∀ c, c ∈ student_choices studs !!! sid → v (x_var sid (proj_of c)) = 0.
Proof.
  intros Hm Hne Hf Hsid Hrep.
  pose proof (base_feasible_of_ext _ _ _ _ _ Hm Hf) as Hbf.
  destruct Hf as [Hb Hc].
  apply ext_build_model_sections in Hm as (mw & ->); [|done]. simpl in Hb, Hc.
  do 3 apply Forall_app in Hb as [_ Hb]. apply Forall_app in Hc as [_ Hc].
  set (ids := student_ids studs) in *. set (sc := student_choices studs) in *.
  set (ss := student_sections studs) in *.
  assert (∀ c, c ∈ sc !!! sid → v (x_var sid (proj_of c)) = 0) as Hx.
  { intros c Hin.
    pose proof (link_x_w_holds ids sc ss caps _ v sid c Hc Hsid Hin) as Hlink.
    assert (∀ sec, sec ∈ ss !!! sid → v (w_var sid (proj_of c) sec) = 0
                                        ∨ v (w_var sid (proj_of c) sec) = 1) as Hw.
    { intros sec Hsec. apply (w_binary ids sc ss caps v Hb).
      apply elem_of_w_keys. eauto. }
    destruct (x_binary ids sc caps _ v Hbf sid c Hsid Hin) as [Hx0|Hx1]; [done|].
    exfalso. rewrite Hx1 in Hlink.
    assert (∀ sec, sec ∈ ss !!! sid → v (w_var sid (proj_of c) sec) = 0) as Hw0.
    { intros sec Hsec. destruct (Hw sec Hsec) as [?|Hone]; [done|]. exfalso.
      pose proof (twice_in_sum (λ sec', v (w_var sid (proj_of c) sec')) (λ s, s = sec)
                    (ss !!! sid) 1) as Htw.
      assert (2 * 1 ≤ sumZ ((λ sec', v (w_var sid (proj_of c) sec')) <$> ss !!! sid)); [|lia].
      apply Htw; [| |lia|by apply Hrep].
      - intros a Ha. destruct (Hw a Ha) as [-> | ->]; lia.
      - intros a _ ->. exact Hone. }
    rewrite sumZ_zero in Hlink by done. lia. }
  split; [|done].
  pose proof (exactly_one ids sc caps _ v Hbf sid Hsid) as E1.
  rewrite sumZ_zero in E1 by done. lia.
Qed.

Lemma repeated_sections_shut_student_out_witness :
  ∃ m, external_assign.build_model [Edge_examples.gus] {[ "p" := 3 ]} Examples.no_options = inr m
       ∧ feasible m More_examples.nobody
       ∧ More_examples.nobody (u_var "s1") = 1.
Proof.
  eexists. split; [reflexivity|].
  split; [apply (bool_decide_unpack _); vm_compute; reflexivity|].
  refine (proj1 (repeated_sections_shut_student_out [Edge_examples.gus] {[ "p" := 3 ]}
                   Examples.no_options _ More_examples.nobody "s1" eq_refl _ _ _ _)).
  - apply (bool_decide_unpack _). vm_compute. reflexivity.
  - apply (bool_decide_unpack _). vm_compute. reflexivity.
  - apply list_elem_of_here.
  - intros sec Hsec. vm_compute in Hsec.
    apply elem_of_cons in Hsec as [->|Hsec]; [vm_compute; lia|].
    apply elem_of_cons in Hsec as [->|Hsec]; [vm_compute; lia|].
    by apply elem_of_nil in Hsec.
Defined.

(** ** A ranked project that the capacity mapping does not list *)

Lemma filter_all {A} (P : A → Prop) `{!∀ a, Decision (P a)} (l : list A) :
  (∀ a, a ∈ l → P a) → filter P l = l.
Proof.
  induction l as [|a l IH]; intros Hall; [done|].
  rewrite filter_cons, decide_True by apply Hall, list_elem_of_here.
  f_equal. apply IH. intros b Hb. by apply Hall, list_elem_of_further.
Qed.

Lemma everyone_on_binary q k : binary (everyone_on q) k.
Proof. unfold binary. destruct k; simpl; auto. case_decide; auto. Qed.

Lemma everyone_on_base_feasible ids sc caps mc q :
  caps !! q = None →
  (∀ sid, sid ∈ ids → times_chosen q (sc !!! sid) = 1%nat) →
  base_feasible ids sc caps mc (everyone_on q).
Proof.
  intros Hq Hone.
  split; [apply Forall_forall; intros k _; apply everyone_on_binary|].
  apply Forall_forall. intros k Hk. unfold base_constrs in Hk.
  apply elem_of_app in Hk as [Hk|Hk].
  - apply list_elem_of_fmap in Hk as (sid & -> & Hsid).
    unfold holds, assign_constr. simpl.
    rewrite eval_lin_add, eval_lin_var, eval_lin_const, eval_quicksum_fmap.
    specialize (Hone sid Hsid). unfold times_chosen in Hone.
    apply (f_equal Z.of_nat) in Hone. rewrite length_filter_sum in Hone.
    change (everyone_on q (u_var sid)) with 0.
    rewrite Z.add_0_r. change (Z.of_nat 1) with 1 in Hone. rewrite <- Hone.
    apply sumZ_eq. intros c _. rewrite eval_lin_var. simpl. by case_decide.
  - apply list_elem_of_bind in Hk as (p & Hk & Hp).
    assert (p ≠ q) as Hne.
    { intros ->. apply elem_of_projects in Hp as [c Hc]. congruence. }
    assert (eval (everyone_on q) (project_load ids sc p) = 0) as Hload.
    { unfold project_load. rewrite eval_quicksum_fmap.
      apply sumZ_zero. intros sid _. rewrite eval_lin_var. simpl. by rewrite decide_False. }
    apply elem_of_cons in Hk as [->|Hk]; [|apply list_elem_of_singleton in Hk as ->].
    + unfold holds, max_capacity_constr. simpl.
      rewrite Hload, eval_lin_scale, eval_lin_var. simpl. lia.
    + unfold holds, min_capacity_constr. simpl.
      rewrite Hload, eval_lin_scale, eval_lin_var. simpl. lia.
Qed.

(** X6. A project [q] that students rank but that is not a key of
    [capacities] has no capacity constraint at all: if every student on
    record ranks [q] exactly once, the point that seats the whole roster on
    [q] is feasible for the model of [assignment.py], and for the model of
    [external_assign.py] when no student declares a section. *)
Theorem unlisted_project_has_no_limit studs caps opts m q :
  caps !! q = None →
  (∀ sid, sid ∈ student_ids studs →
          times_chosen q (student_choices studs !!! sid) = 1%nat) →
  assignment.build_model studs caps opts = inr m
  ∨ (sectionless studs ∧ external_assign.build_model studs caps opts = inr m) →
  feasible m (everyone_on q)
  ∧ assigned_count (student_ids studs) (student_choices studs) (everyone_on q) = length studs
  ∧ students_on (everyone_on q) (student_ids studs) (student_choices studs) q = length studs.
Proof.
  intros Hq Hone Hm.
  assert (assignment.build_model studs caps opts = inr m) as Hb.
  { destruct Hm as [Hm|[Hs Hm]]; [done|].
    by rewrite (same_model_without_sections _ _ _ (sections_empty _ Hs)) in Hm. }
  assert (∀ sid, sid ∈ student_ids studs →
                 ∃ c, c ∈ student_choices studs !!! sid ∧ proj_of c = q) as Hex.
  { intros sid Hsid. specialize (Hone sid Hsid). unfold times_chosen in Hone.
    destruct (filter (λ c, proj_of c = q) (student_choices studs !!! sid)) as [|c l] eqn:E;
      [done|].
    assert (c ∈ filter (λ c, proj_of c = q) (student_choices studs !!! sid)) as Hin
      by (rewrite E; apply list_elem_of_here).
    apply list_elem_of_filter in Hin as [? ?]. by exists c. }
  assert (length (student_ids studs) = length studs) as Hlen
    by (unfold student_ids; by rewrite length_fmap).
  split_and!.
  - apply base_build_model_eq in Hb as (mw & _ & ->).
    by apply everyone_on_base_feasible.
  - unfold assigned_count. rewrite filter_all; [done|].
    intros sid Hsid. destruct (Hex sid Hsid) as (c & Hc & Hp).
    unfold is_assigned. apply Exists_exists. exists c. split; [done|].
    simpl. by rewrite decide_True.
  - unfold students_on. rewrite filter_all; [done|].
    intros sid Hsid. destruct (Hex sid Hsid) as (c & Hc & Hp). split.
    + apply elem_of_x_keys. eauto.
    + simpl. by rewrite decide_True.
Qed.

Lemma unlisted_project_has_no_limit_witness :
  ∃ m, assignment.build_model [Examples.ada; Examples.bob] Edge_examples.other_caps
         Examples.no_options = inr m
       ∧ feasible m (everyone_on "p")
       ∧ students_on (everyone_on "p") ["s1"; "s2"]
           (student_choices [Examples.ada; Examples.bob]) "p" = 2%nat.
Proof.
  eexists. split; [reflexivity|].
  assert (∀ sid, sid ∈ student_ids [Examples.ada; Examples.bob] →
                 times_chosen "p" (student_choices [Examples.ada; Examples.bob] !!! sid) = 1%nat)
    as Hone.
  { intros sid Hsid. vm_compute in Hsid.
    apply elem_of_cons in Hsid as [->|Hsid]; [reflexivity|].
    apply elem_of_cons in Hsid as [->|Hsid]; [reflexivity|].
    by apply elem_of_nil in Hsid. }
  destruct (unlisted_project_has_no_limit [Examples.ada; Examples.bob] Edge_examples.other_caps
              Examples.no_options _ "p" eq_refl Hone (or_introl eq_refl)) as (Hf & _ & Hn).
  split; [exact Hf | exact Hn].
Defined.

(** ** What the returned document contains *)

Lemma base_assign_inr solve data out :
  assignment.assign solve data = inr out →
  ∃ studs caps opts m,
    students data = Some studs ∧ capacities data = Some caps ∧ options data = Some opts
    ∧ assignment.build_model studs caps opts = inr m
    ∧ out = if accepted (Status (solve m))
            then extract assignment.inconsistent_reason (student_choices studs) (solve m) studs
            else no_solution (Status (solve m)) studs.
Proof.
  unfold assignment.assign.
  destruct (students data) as [studs|]; [|done].
  destruct (capacities data) as [caps|]; [|done].
  destruct (options data) as [opts|]; [|done].
  destruct (assignment.build_model studs caps opts) as [e|m] eqn:Hm; [done|].
  cbv zeta. intros H. exists studs, caps, opts, m. split_and!; try done.
  destruct (accepted _); by injection H as <-.
Qed.

Lemma ext_assign_inr solve data out :
  external_assign.assign solve data = inr out →
  ∃ studs caps opts m,
    students data = Some studs ∧ capacities data = Some caps ∧ options data = Some opts
    ∧ external_assign.build_model studs caps opts = inr m
    ∧ out = if accepted (Status (solve m))
            then extract external_assign.inconsistent_reason (student_choices studs) (solve m) studs
            else no_solution (Status (solve m)) studs.
Proof.
  unfold external_assign.assign.
  destruct (students data) as [studs|]; [|done].
  destruct (capacities data) as [caps|]; [|done].
  destruct (options data) as [opts|]; [|done].
  destruct (external_assign.build_model studs caps opts) as [e|m] eqn:Hm; [done|].
  cbv zeta. intros H. exists studs, caps, opts, m. split_and!; try done.
  destruct (accepted _); by injection H as <-.
Qed.

(** Either script returns one of two documents. *)
Lemma assign_output_cases solve data studs out :
  students data = Some studs →
  assignment.assign solve data = inr out ∨ external_assign.assign solve data = inr out →
  ∃ inc r, out = extract inc (student_choices studs) r studs
           ∨ out = no_solution (Status r) studs.
Proof.
  intros Hs [H|H].
  - apply base_assign_inr in H as (studs' & caps & opts & m & Hs' & _ & _ & _ & ->).
    assert (studs' = studs) as -> by congruence.
    exists assignment.inconsistent_reason, (solve m). destruct (accepted _); auto.
  - apply ext_assign_inr in H as (studs' & caps & opts & m & Hs' & _ & _ & _ & ->).
    assert (studs' = studs) as -> by congruence.
    exists external_assign.inconsistent_reason, (solve m). destruct (accepted _); auto.
Qed.

Lemma elem_of_assigned_extract inc sc r studs a :
  a ∈ assigned (extract inc sc r studs) →
  ∃ s, s ∈ studs ∧ extract_student inc sc r s = inl a.
Proof.
  rewrite extract_spec. simpl. intros (s & Hs & Hk)%list_elem_of_omap.
  exists s. split; [done|].
  destruct (extract_student inc sc r s); simpl in Hk; congruence.
Qed.

(** X7. A student is only ever assigned to a project of their own list:
    every [assigned] entry of a document returned by either script carries
    the identity of a roster student and the (projectId, projectName, rank)
    of one of the choices on record for that identifier, which are the
    student's own choices when identifiers are unique. *)
Theorem assigned_entries_are_ranked_choices solve data studs out :
  students data = Some studs →
  assignment.assign solve data = inr out ∨ external_assign.assign solve data = inr out →
  ∀ a, a ∈ assigned out →
    ∃ s, s ∈ studs
         ∧ a_prefId a = prefId s ∧ a_buid a = buid s ∧ a_studentName a = studentName s
         ∧ (a_projectId a, a_projectName a, a_rank a) ∈ student_choices studs !!! prefId s
         ∧ (NoDup (student_ids studs) →
            ∃ c, c ∈ default [] (choices s)
                 ∧ projectId c = a_projectId a ∧ projectName c = a_projectName a
                 ∧ rank c = a_rank a).
Proof.
  intros Hs Hout a Ha.
  destruct (assign_output_cases solve data studs out Hs Hout) as (inc & r & [-> | ->]);
    [|by apply elem_of_nil in Ha].
  apply elem_of_assigned_extract in Ha as (s & Hin & Hex).
  apply extract_student_inl in Hex as ([[p nm] rk] & Hc & _ & ->).
  exists s. simpl. split_and!; try done.
  intros Hnd.
  assert (prefId s ∈ student_ids studs) as Hid
    by (unfold student_ids; apply list_elem_of_fmap; by exists s).
  destruct (student_choices_of studs (prefId s) Hid) as (s' & Hs' & E & Hsc).
  rewrite (prefId_unique studs s' s Hnd Hs' Hin E) in Hsc. rewrite Hsc in Hc.
  unfold choice_tuples in Hc. apply list_elem_of_fmap in Hc as (c & [= -> -> ->] & Hc).
  by exists c.
Qed.

Lemma assigned_entries_are_ranked_choices_witness :
  ∃ out, external_assign.assign Examples.ada_wins Examples.scenario_A = inr out
         ∧ ∀ a, a ∈ assigned out → ∃ s, s ∈ [Examples.ada; Examples.bob] ∧ a_prefId a = prefId s.
Proof.
  eexists. split; [vm_compute; reflexivity|].
  intros a Ha.
  destruct (assigned_entries_are_ranked_choices Examples.ada_wins Examples.scenario_A
              [Examples.ada; Examples.bob] _ eq_refl (or_intror eq_refl) a Ha)
    as (s & Hs & Hid & _).
  exists s. split; [exact Hs | exact Hid].
Defined.

(** ** Roster order *)

Lemma omap_ids_sublist {B} (g : student → option B) (f : B → string) (l : list student) :
  (∀ s b, g s = Some b → f b = prefId s) →
  f <$> omap g l `sublist_of` prefId <$> l.
Proof.
  intros Hg. induction l as [|s l IH]; [done|].
  cbn [omap list_omap]. rewrite fmap_cons.
  destruct (g s) as [b|] eqn:E.
  - rewrite fmap_cons, (Hg s b E). by apply sublist_skip.
  - by apply sublist_cons.
Qed.

(** X8. Both lists of a returned document keep the roster order: the
    identifiers of [assigned] and those of [unassigned] are each a
    subsequence of the roster's identifiers. *)
Theorem output_lists_keep_roster_order solve data studs out :
  students data = Some studs →
  assignment.assign solve data = inr out ∨ external_assign.assign solve data = inr out →
  a_prefId <$> assigned out `sublist_of` student_ids studs
  ∧ n_prefId <$> unassigned out `sublist_of` student_ids studs.
Proof.
  intros Hs Hout.
  destruct (assign_output_cases solve data studs out Hs Hout) as (inc & r & [-> | ->]).
  - rewrite extract_spec. simpl. split; apply omap_ids_sublist; intros s b Hk.
    + pose proof (extract_student_prefId inc (student_choices studs) r s) as Hid.
      destruct (extract_student _ _ _ s); simpl in Hk; congruence.
    + pose proof (extract_student_prefId inc (student_choices studs) r s) as Hid.
      destruct (extract_student _ _ _ s); simpl in Hk; congruence.
  - simpl. split; [apply sublist_nil_l|].
    unfold student_ids. by rewrite <- list_fmap_compose.
Qed.

Lemma output_lists_keep_roster_order_witness :
  ∃ out, assignment.assign Examples.gives_up Examples.scenario_A = inr out
         ∧ n_prefId <$> unassigned out `sublist_of` ["s1"; "s2"].
Proof.
  eexists. split; [vm_compute; reflexivity|].
  exact (proj2 (output_lists_keep_roster_order Examples.gives_up Examples.scenario_A
                  [Examples.ada; Examples.bob] _ eq_refl (or_introl eq_refl))).
Defined.

(** ** The document after a sound answer *)

Lemma extract_student_assigned_iff inc sc r s :
  (∃ a, extract_student inc sc r s = inl a) ↔ is_assigned sc (rounded r) (prefId s).
Proof.
  unfold is_assigned. rewrite Exists_exists. split.
  - intros [a Ha]. apply extract_student_inl in Ha as (c & Hc & H1 & _). by exists c.
  - intros (c & Hc & H1). unfold extract_student.
    destruct (List.find _ _) as [[[p nm] rk]|] eqn:Hfind; [by eexists|].
    exfalso. apply rounded_1 in H1.
    pose proof (proj1 (find_none_iff _ _) Hfind c Hc) as H0. simpl in H0. congruence.
Qed.

Lemma length_assigned_extract inc sc r studs :
  length (assigned (extract inc sc r studs)) = assigned_count (student_ids studs) sc (rounded r).
Proof.
  rewrite extract_spec. simpl. unfold assigned_count, student_ids.
  induction studs as [|s l IH]; [done|].
  cbn [omap list_omap]. rewrite fmap_cons, filter_cons.
  pose proof (extract_student_assigned_iff inc sc r s) as Hiff.
  destruct (extract_student inc sc r s) as [a|n]; simpl.
  - rewrite decide_True by (apply Hiff; by eexists). by rewrite length_cons, IH.
  - rewrite decide_False; [done|]. intros [a Ha]%Hiff. done.
Qed.

Lemma unassigned_reasons_extract inc ids sc caps mc r studs n :
  base_feasible ids sc caps mc (rounded r) → (∀ s, s ∈ studs → prefId s ∈ ids) →
  n ∈ unassigned (extract inc sc r studs) → n_reason n = no_capacity_reason.
Proof.
  intros Hf Hids. rewrite extract_spec. simpl.
  intros (s & Hs & Hk)%list_elem_of_omap.
  rewrite (extract_student_sound inc no_capacity_reason ids sc caps mc r s Hf (Hids s Hs)) in Hk.
  destruct (extract_student no_capacity_reason sc r s) as [a|n'] eqn:E; [done|].
  simpl in Hk. injection Hk as <-.
  apply extract_student_inr in E as [_ ->]. simpl. by destruct (gt_half _).
Qed.

(** X9. When the solver's answer is sound for the model, the document either
    script returns never carries the defensive "Inconsistent assignment"
    reason: after an accepted status every [unassigned] entry has the reason
    "No available capacity for ranked choices" and [assigned] has as many
    entries as students hold a seat in the answer; after any other status
    every reason names the status code. *)
Theorem sound_answer_reasons solve data studs caps opts m :
  students data = Some studs → capacities data = Some caps → options data = Some opts →
  sound_on m (solve m) →
  let st := Status (solve m) in
  let reason := if accepted st then "No available capacity for ranked choices"
                else "ILP infeasible or no solution (status " +:+ str_of_Z st +:+ ")" in
  let seated := assigned_count (student_ids studs) (student_choices studs) (rounded (solve m)) in
  (assignment.build_model studs caps opts = inr m →
   ∃ out, assignment.assign solve data = inr out
          ∧ (∀ n, n ∈ unassigned out → n_reason n = reason)
          ∧ (accepted st = true → length (assigned out) = seated))
  ∧ (external_assign.build_model studs caps opts = inr m →
     ∃ out, external_assign.assign solve data = inr out
            ∧ (∀ n, n ∈ unassigned out → n_reason n = reason)
            ∧ (accepted st = true → length (assigned out) = seated)).
Proof.
  intros Hs Hc Ho Hsound st reason seated.
  assert (∀ s, s ∈ studs → prefId s ∈ student_ids studs) as Hids
    by (intros s Hin; unfold student_ids; apply list_elem_of_fmap; by exists s).
  split; intros Hm.
  - unfold assignment.assign. rewrite Hs, Hc, Ho, Hm. cbv zeta.
    unfold reason, seated, st. destruct (accepted (Status (solve m))) eqn:Hacc;
      eexists; (split; [done|]); split.
    + intros n Hn. eapply unassigned_reasons_extract; [|exact Hids|exact Hn].
      eapply base_feasible_of_base; [done|]. by apply Hsound.
    + intros _. apply length_assigned_extract.
    + intros n (s & -> & _)%list_elem_of_fmap. done.
    + done.
  - unfold external_assign.assign. rewrite Hs, Hc, Ho, Hm. cbv zeta.
    unfold reason, seated, st. destruct (accepted (Status (solve m))) eqn:Hacc;
      eexists; (split; [done|]); split.
    + intros n Hn. eapply unassigned_reasons_extract; [|exact Hids|exact Hn].
      eapply base_feasible_of_ext; [done|]. by apply Hsound.
    + intros _. apply length_assigned_extract.
    + intros n (s & -> & _)%list_elem_of_fmap. done.
    + done.
Qed.

Lemma sound_answer_reasons_witness :
  ∃ out, external_assign.assign Examples.ada_wins Examples.scenario_A = inr out
         ∧ ∀ n, n ∈ unassigned out → n_reason n = "No available capacity for ranked choices".
Proof.
  destruct (proj2 (sound_answer_reasons Examples.ada_wins Examples.scenario_A
                     [Examples.ada; Examples.bob] {[ "p" := 1 ]} Examples.no_options
                     _ eq_refl eq_refl eq_refl
                     (λ _, proj1 (proj2 (ada_wins_is_optimal _ eq_refl)))) eq_refl)
    as (out & E & Hr & _).
  exists out. split; [exact E | exact Hr].
Defined.

(** ** Which inputs raise, and what *)

(** X10. Either script raises exactly in two cases: a top-level key is
    missing, with the message "Input data doesn't have all information
    needed."; or all three keys are present and the roster is empty, with
    [max]'s complaint about an empty sequence.  The solver's answer has no
    influence on it. *)
Theorem assign_error_cases solve data e :
  let cases :=
    ((students data = None ∨ capacities data = None ∨ options data = None)
     ∧ e = ValueError "Input data doesn't have all information needed.")
    ∨ (students data = Some [] ∧ is_Some (capacities data) ∧ is_Some (options data)
       ∧ e = ValueError "max() arg is an empty sequence") in
  (assignment.assign solve data = inl e ↔ cases)
  ∧ (external_assign.assign solve data = inl e ↔ cases).
Proof.
  intros cases. unfold cases. split.
  - unfold assignment.assign.
    destruct (students data) as [studs|] eqn:Hs;
      [|split; [intros [= <-]; left; auto | intros [[_ ->]|[? _]]; done]].
    destruct (capacities data) as [caps|] eqn:Hc;
      [|split; [intros [= <-]; left; auto | intros [[_ ->]|(_ & [? ?] & _)]; done]].
    destruct (options data) as [opts|] eqn:Ho;
      [|split; [intros [= <-]; left; auto | intros [[_ ->]|(_ & _ & [? ?] & _)]; done]].
    destruct studs as [|s studs].
    + split; [intros [= <-]; right; split_and!; eauto | intros [[[?|[?|?]] _]|(_ & _ & _ & ->)]; done].
    + destruct (base_build_model_inr (s :: studs) caps opts) as [m ->]; [done|].
      cbv zeta. split.
      * destruct (accepted _); done.
      * intros [[[?|[?|?]] _]|(? & _)]; done.
  - unfold external_assign.assign.
    destruct (students data) as [studs|] eqn:Hs;
      [|split; [intros [= <-]; left; auto | intros [[_ ->]|[? _]]; done]].
    destruct (capacities data) as [caps|] eqn:Hc;
      [|split; [intros [= <-]; left; auto | intros [[_ ->]|(_ & [? ?] & _)]; done]].
    destruct (options data) as [opts|] eqn:Ho;
      [|split; [intros [= <-]; left; auto | intros [[_ ->]|(_ & _ & [? ?] & _)]; done]].
    destruct studs as [|s studs].
    + split; [intros [= <-]; right; split_and!; eauto | intros [[[?|[?|?]] _]|(_ & _ & _ & ->)]; done].
    + destruct (ext_build_model_inr (s :: studs) caps opts) as [m ->]; [done|].
      cbv zeta. split.
      * destruct (accepted _); done.
      * intros [[[?|[?|?]] _]|(? & _)]; done.
Qed.

(** * [check_assignments.py] *)

Lemma count_ranks_spec students f t :
  match check_assignments.count_ranks students f t with
  | inl e => e = check_assignments.none_le_int
             ∧ ∃ s, s ∈ students ∧ check_assignments.e_rank s = None
  | inr (f', t') =>
      (∀ s, s ∈ students → is_Some (check_assignments.e_rank s))
      ∧ f' = (f + length (filter check_assignments.is_first students))%nat
      ∧ t' = (t + length (filter check_assignments.is_top3 students))%nat
  end.
Proof.
  revert f t. induction students as [|s l IH]; intros f t; simpl.
  - split_and!; [by intros s ?%elem_of_nil | lia | lia].
  - destruct (check_assignments.e_rank s) as [r|] eqn:Hr.
    + match goal with |- context [check_assignments.count_ranks l ?a ?b] =>
        specialize (IH a b); destruct (check_assignments.count_ranks l a b) as [e|[f' t']]
      end.
      * destruct IH as [-> (s' & Hs' & Hn)]. split; [done|].
        exists s'. split; [by apply list_elem_of_further | done].
      * destruct IH as (Hall & -> & ->). split_and!.
        -- intros s' [->|Hs']%elem_of_cons; [by rewrite Hr | by apply Hall].
        -- rewrite filter_cons.
           destruct (decide (Some r = Some 1)) as [E|N].
           ++ rewrite decide_True by (unfold check_assignments.is_first; by rewrite Hr).
              rewrite length_cons. lia.
           ++ rewrite decide_False; [lia|].
              unfold check_assignments.is_first. by rewrite Hr.
        -- rewrite filter_cons.
           destruct (Z.leb_spec r 3).
           ++ rewrite decide_True by (unfold check_assignments.is_top3; by rewrite Hr).
              rewrite length_cons. lia.
           ++ rewrite decide_False; [lia|].
              unfold check_assignments.is_top3. rewrite Hr. lia.
    + split; [done|]. exists s. split; [apply list_elem_of_here | done].
Qed.

Lemma first_is_top3 s : check_assignments.is_first s → check_assignments.is_top3 s.
Proof.
  unfold check_assignments.is_first, check_assignments.is_top3. intros ->. lia.
Qed.

Lemma length_filter_mono {A} (P Q : A → Prop) `{!∀ a, Decision (P a)} `{!∀ a, Decision (Q a)}
    (l : list A) :
  (∀ a, P a → Q a) → (length (filter P l) ≤ length (filter Q l))%nat.
Proof.
  intros HPQ. induction l as [|a l IH]; [done|].
  rewrite !filter_cons. destruct (decide (P a)) as [p|].
  - rewrite decide_True by by apply HPQ. rewrite !length_cons. lia.
  - destruct (decide (Q a)); [rewrite length_cons|]; lia.
Qed.

(** X11. Whenever the script prints a summary, the counts are ordered
    [got_first <= got_top3 <= total_assigned] with [total_assigned > 0], so
    both percentages lie between 0 and 100 and the first-choice share never
    exceeds the top-3 share; the totals are the lengths of the two lists. *)
Theorem summary_counts_are_ordered data total got_first got_top3 total_un :
  check_assignments.main data
  = inr (check_assignments.Summary total got_first got_top3 total_un) →
  (got_first ≤ got_top3 ≤ total)%nat ∧ (0 < total)%nat
  ∧ total = length (default [] (check_assignments.d_assigned data))
  ∧ total_un = length (default [] (check_assignments.d_unassigned data)).
Proof.
  unfold check_assignments.main.
  pose proof (count_ranks_spec (default [] (check_assignments.d_assigned data)) 0 0) as Hspec.
  destruct (check_assignments.count_ranks _ 0 0) as [e|[f t]]; [done|].
  destruct Hspec as (_ & -> & ->).
  case_decide as Hz; [done|]. intros [= <- <- <- <-].
  set (l := default [] (check_assignments.d_assigned data)) in *.
  split_and!; try done; try lia.
  - simpl. apply length_filter_mono, first_is_top3.
  - simpl. apply length_filter.
Qed.

Lemma summary_counts_are_ordered_witness :
  check_assignments.main
    (check_assignments.as_report
       (Scenario_A.outcome Examples.ada "p" "Project p" Examples.bob no_capacity_reason 0%Q))
  = inr (check_assignments.Summary 1 1 1 1)
  ∧ (1 ≤ 1 ≤ 1)%nat.
Proof.
  split; [reflexivity|].
  exact (proj1 (summary_counts_are_ordered
                  (check_assignments.as_report
                     (Scenario_A.outcome Examples.ada "p" "Project p" Examples.bob
                        no_capacity_reason 0%Q))
                  1 1 1 1 eq_refl)).
Defined.

(** X12. The script raises exactly when some entry of ["assigned"] has no
    rank (the comparison [None <= 3] fails), and it prints "No assigned
    students found." exactly when ["assigned"] is absent or empty, whatever
    ["unassigned"] holds. *)
Theorem checker_outcomes data :
  ((∃ e, check_assignments.main data = inl e)
   ↔ ∃ s, s ∈ default [] (check_assignments.d_assigned data)
          ∧ check_assignments.e_rank s = None)
  ∧ (check_assignments.main data = inr check_assignments.No_assigned_students_found
     ↔ default [] (check_assignments.d_assigned data) = []).
Proof.
  unfold check_assignments.main.
  pose proof (count_ranks_spec (default [] (check_assignments.d_assigned data)) 0 0) as Hspec.
  set (l := default [] (check_assignments.d_assigned data)) in *.
  destruct (check_assignments.count_ranks l 0 0) as [e|[f t]].
  - destruct Hspec as [-> (s & Hs & Hn)]. split.
    + split; [intros _; by exists s | intros _; by eexists].
    + split; [done|]. intros E. rewrite E in Hs. by apply elem_of_nil in Hs.
  - destruct Hspec as (Hall & _ & _). split.
    + split.
      * intros [e He]. by case_decide.
      * intros (s & Hs & Hn). destruct (Hall s Hs) as [r Hr]. congruence.
    + case_decide as Hz.
      * split; [intros _|done]. by apply nil_length_inv.
      * split; [done|]. intros E. rewrite E in Hz. done.
Qed.

(** ** The checker on the documents the assignment scripts write *)

Lemma length_extract inc sc r studs :
  (length (assigned (extract inc sc r studs)) + length (unassigned (extract inc sc r studs)))%nat
  = length studs.
Proof.
  rewrite extract_spec. simpl.
  induction studs as [|s l IH]; [done|].
  cbn [omap list_omap].
  destruct (extract_student inc sc r s); simpl; rewrite ?length_cons; simpl in IH; lia.
Qed.

Lemma count_ranks_as_report (l : list assigned_entry) f t :
  ∃ f' t', check_assignments.count_ranks
             ((λ a, {| check_assignments.e_rank := Some (a_rank a) |}) <$> l) f t
           = inr (f', t').
Proof.
  revert f t. induction l as [|a l IH]; intros f t; [by eexists _, _|].
  rewrite fmap_cons. simpl. apply IH.
Qed.

(** X13. On the document either assignment script returns, the checker never
    raises: it prints "No assigned students found." when nobody was
    assigned, and otherwise a summary whose two totals are the lengths of
    the two lists and add up to the size of the roster. *)
Theorem checker_reads_assign_output solve data studs out :
  students data = Some studs →
  assignment.assign solve data = inr out ∨ external_assign.assign solve data = inr out →
  (length (assigned out) + length (unassigned out))%nat = length studs
  ∧ ((assigned out = []
      ∧ check_assignments.main (check_assignments.as_report out)
        = inr check_assignments.No_assigned_students_found)
     ∨ ∃ got_first got_top3,
         check_assignments.main (check_assignments.as_report out)
         = inr (check_assignments.Summary (length (assigned out)) got_first got_top3
                  (length (unassigned out)))).
Proof.
  intros Hs Hout. split.
  - destruct (assign_output_cases solve data studs out Hs Hout) as (inc & r & [-> | ->]).
    + apply length_extract.
    + simpl. by rewrite length_fmap.
  - unfold check_assignments.main, check_assignments.as_report. simpl.
    destruct (count_ranks_as_report (assigned out) 0 0) as (f & t & ->).
    rewrite length_fmap. case_decide as Hz.
    + left. split; [by apply nil_length_inv | done].
    + right. by exists f, t.
Qed.

Lemma checker_reads_assign_output_witness :
  ∃ out, external_assign.assign Examples.ada_wins Examples.scenario_A = inr out
         ∧ check_assignments.main (check_assignments.as_report out)
           = inr (check_assignments.Summary 1 1 1 1).
Proof.
  eexists. split; [vm_compute; reflexivity|].
  destruct (proj2 (checker_reads_assign_output Examples.ada_wins Examples.scenario_A
                     [Examples.ada; Examples.bob] _ eq_refl (or_intror eq_refl)))
    as [[Hnil _]|(f & t & E)].
  - discriminate Hnil.
  - reflexivity.
Defined.

(** X14. After a solve that ends in a status other than optimal or
    suboptimal, the checker run on the returned document prints only "No
    assigned students found.": the number of unassigned students is not
    reported. *)
Theorem checker_after_rejected_status solve data studs caps opts :
  students data = Some studs → capacities data = Some caps → options data = Some opts →
  (∀ m, assignment.build_model studs caps opts = inr m →
        accepted (Status (solve m)) = false →
        ∃ out, assignment.assign solve data = inr out
               ∧ check_assignments.main (check_assignments.as_report out)
                 = inr check_assignments.No_assigned_students_found)
  ∧ (∀ m, external_assign.build_model studs caps opts = inr m →
          accepted (Status (solve m)) = false →
          ∃ out, external_assign.assign solve data = inr out
                 ∧ check_assignments.main (check_assignments.as_report out)
                   = inr check_assignments.No_assigned_students_found).
Proof.
  intros Hs Hc Ho. split; intros m Hm Hst.
  - unfold assignment.assign. rewrite Hs, Hc, Ho, Hm. cbv zeta. rewrite Hst.
    by eexists.
  - unfold external_assign.assign. rewrite Hs, Hc, Ho, Hm. cbv zeta. rewrite Hst.
    by eexists.
Qed.

Lemma checker_after_rejected_status_witness :
  ∃ out, external_assign.assign Examples.gives_up Examples.scenario_A = inr out
         ∧ check_assignments.main (check_assignments.as_report out)
           = inr check_assignments.No_assigned_students_found.
Proof.
  exact (proj2 (checker_after_rejected_status Examples.gives_up Examples.scenario_A
                  [Examples.ada; Examples.bob] {[ "p" := 1 ]} Examples.no_options
                  eq_refl eq_refl eq_refl) _ eq_refl eq_refl).
Defined.

(** * [CSV_to_JSON.py] *)

Section Converter.
Variable strip : string → string.

Lemma choice_of_column_Some r k col c :
  CSV_to_JSON.choice_of_column strip r k col = Some c →
  rank c = k ∧ projectName c = projectId c ∧ projectId c ≠ EmptyString.
Proof.
  unfold CSV_to_JSON.choice_of_column.
  destruct (CSV_to_JSON.cells r !! col) as [[|s]|]; [done|..];
    case_decide; [done| |done|]; by intros [= <-].
Qed.

Lemma choices_of_row_unfold r :
  CSV_to_JSON.choices_of_row strip r
  = omap id [ CSV_to_JSON.choice_of_column strip r 1 "1st Choice Project";
              CSV_to_JSON.choice_of_column strip r 2 "2nd Choice Project";
              CSV_to_JSON.choice_of_column strip r 3 "3rd Choice Project";
              CSV_to_JSON.choice_of_column strip r 4 "4th Choice Project";
              CSV_to_JSON.choice_of_column strip r 5 "5th Choice Project" ].
Proof. reflexivity. Qed.

Lemma omap_ranks_sublist (l : list (option choice * Z)) :
  (∀ o k c, (o, k) ∈ l → o = Some c → rank c = k) →
  rank <$> omap fst l `sublist_of` l.*2.
Proof.
  intros H. induction l as [|[o k] l IH]; [done|].
  assert (rank <$> omap fst l `sublist_of` l.*2) as IH'
    by (apply IH; intros o' k' c' Hin; apply H; by apply list_elem_of_further).
  cbn [omap list_omap fmap list_fmap fst snd].
  destruct o as [c|]; simpl.
  - rewrite (H (Some c) k c (list_elem_of_here _ _) eq_refl). by apply sublist_skip.
  - by apply sublist_cons.
Qed.

Lemma ranks_of_row_sublist r :
  rank <$> CSV_to_JSON.choices_of_row strip r `sublist_of` [1; 2; 3; 4; 5].
Proof.
  pose proof (omap_ranks_sublist
    [ (CSV_to_JSON.choice_of_column strip r 1 "1st Choice Project", 1);
      (CSV_to_JSON.choice_of_column strip r 2 "2nd Choice Project", 2);
      (CSV_to_JSON.choice_of_column strip r 3 "3rd Choice Project", 3);
      (CSV_to_JSON.choice_of_column strip r 4 "4th Choice Project", 4);
      (CSV_to_JSON.choice_of_column strip r 5 "5th Choice Project", 5) ]) as H.
  apply H. intros o k c Hin ->.
  repeat (apply elem_of_cons in Hin as [E|Hin];
          [injection E as E ->; symmetry in E;
           by apply choice_of_column_Some in E as [? _]|]).
  by apply elem_of_nil in Hin.
Qed.

Lemma elem_of_choices_of_row r c :
  c ∈ CSV_to_JSON.choices_of_row strip r →
  projectName c = projectId c ∧ projectId c ≠ EmptyString.
Proof.
  rewrite choices_of_row_unfold. intros (o & Hin & Ho)%list_elem_of_omap.
  simpl in Ho. subst o.
  repeat (apply elem_of_cons in Hin as [E|Hin];
          [symmetry in E; by apply choice_of_column_Some in E as [_ ?]|]).
  by apply elem_of_nil in Hin.
Qed.

Lemma elem_of_j_students df course semester s :
  s ∈ CSV_to_JSON.j_students (CSV_to_JSON.build_json_for_course strip df course semester)
  ↔ ∃ r, r ∈ df ∧ CSV_to_JSON.Course r = Some course ∧ CSV_to_JSON.Semester r = Some semester
         ∧ s = CSV_to_JSON.student_of_row strip r.
Proof.
  simpl. rewrite list_elem_of_fmap. unfold CSV_to_JSON.sub_frame. split.
  - intros (r & -> & Hr). apply list_elem_of_filter in Hr as [[? ?] ?]. by exists r.
  - intros (r & Hr & Hc & Hs & ->). exists r. split; [done|].
    by apply list_elem_of_filter.
Qed.

(** X15. Every student the converter writes has at most five choices whose
    ranks are the positions of the filled columns: strictly increasing
    numbers among 1..5 (a subsequence of [1,2,3,4,5]).  Each choice has its
    project name equal to its non-empty project identifier. *)
Theorem converter_ranks_are_column_positions df course semester s :
  s ∈ CSV_to_JSON.j_students (CSV_to_JSON.build_json_for_course strip df course semester) →
  ∃ cs, choices s = Some cs
        ∧ rank <$> cs `sublist_of` [1; 2; 3; 4; 5]
        ∧ (∀ c, c ∈ cs → projectName c = projectId c ∧ projectId c ≠ EmptyString)
        ∧ prefId s = buid s.
Proof.
  intros (r & _ & _ & _ & ->)%elem_of_j_students.
  exists (CSV_to_JSON.choices_of_row strip r). split_and!; [done| | |done].
  - apply ranks_of_row_sublist.
  - apply elem_of_choices_of_row.
Qed.

Lemma elem_of_projects_of rows p :
  p ∈ CSV_to_JSON.projects_of strip rows
  ↔ ∃ r c, r ∈ rows ∧ c ∈ CSV_to_JSON.choices_of_row strip r ∧ projectId c = p.
Proof.
  unfold CSV_to_JSON.projects_of. rewrite elem_of_list_to_set, list_elem_of_bind. split.
  - intros (r & (c & -> & Hc)%list_elem_of_fmap & Hr). by exists r, c.
  - intros (r & c & Hr & Hc & <-). exists r. split; [|done].
    apply list_elem_of_fmap. by exists c.
Qed.

(** X16. The capacities the converter writes list exactly the projects that
    some student of the course ranks, each with capacity 24: no ranked
    project is left without a capacity and no other project is listed. *)
Theorem converter_capacities_cover_the_choices df course semester p :
  let j := CSV_to_JSON.build_json_for_course strip df course semester in
  (CSV_to_JSON.j_capacities j !! p = Some 24
   ↔ ∃ s c, s ∈ CSV_to_JSON.j_students j ∧ c ∈ default [] (choices s) ∧ projectId c = p)
  ∧ (CSV_to_JSON.j_capacities j !! p = None ∨ CSV_to_JSON.j_capacities j !! p = Some 24).
Proof.
  intros j. unfold j. cbn [CSV_to_JSON.build_json_for_course CSV_to_JSON.j_capacities].
  rewrite lookup_gset_to_gmap.
  destruct (decide (p ∈ CSV_to_JSON.projects_of strip (CSV_to_JSON.sub_frame df course semester)))
    as [Hin|Hnin].
  - rewrite option_guard_True by done. split; [|by right]. split; [intros _|done].
    apply elem_of_projects_of in Hin as (r & c & Hr & Hc & <-).
    exists (CSV_to_JSON.student_of_row strip r), c. split_and!; [|done..].
    simpl. apply list_elem_of_fmap. by exists r.
  - rewrite option_guard_False by done. split; [|by left]. split; [done|].
    intros (s & c & Hs & Hc & <-). exfalso. apply Hnin.
    simpl in Hs. apply list_elem_of_fmap in Hs as (r & -> & Hr).
    apply elem_of_projects_of. by exists r, c.
Qed.
End Converter.

Lemma converter_ranks_are_column_positions_witness :
  ∃ cs, choices (CSV_to_JSON.student_of_row CSV_to_JSON.strip_blank CSV_to_JSON.hal) = Some cs
        ∧ rank <$> cs `sublist_of` [1; 2; 3; 4; 5].
Proof.
  destruct (converter_ranks_are_column_positions CSV_to_JSON.strip_blank CSV_to_JSON.frame
              "EC463" "Fall 2025"
              (CSV_to_JSON.student_of_row CSV_to_JSON.strip_blank CSV_to_JSON.hal))
    as (cs & E & Hsub & _).
  - vm_compute. apply list_elem_of_here.
  - exists cs. split; [exact E | exact Hsub].
Defined.

(** ** The converter's documents and the assignment scripts *)

Lemma sublists_of_five (l : list Z) :
  l `sublist_of` [1; 2; 3; 4; 5] →
  (Forall (λ k, 1 ≤ k ≤ Z.of_nat (length l)) l ↔ l = seqZ 1 (Z.of_nat (length l))).
Proof.
  intros H.
  repeat (apply sublist_cons_r in H as [H|(? & -> & H)]);
    apply sublist_nil_r in H as ->;
    apply (bool_decide_unpack _); vm_compute; reflexivity.
Qed.

Section Converter_and_scripts.
Variable strip : string → string.

(** X17. A student written by the converter meets the rank condition of the
    dominance property (every rank between 1 and the length of the list)
    exactly when their ranks are 1, 2, ..., k without a gap, that is, when no
    empty column precedes a filled one. *)
Theorem converter_ranks_in_range_iff r :
  ranks_in_range [CSV_to_JSON.student_of_row strip r]
  ↔ rank <$> CSV_to_JSON.choices_of_row strip r
    = seqZ 1 (Z.of_nat (length (CSV_to_JSON.choices_of_row strip r))).
Proof.
  pose proof (sublists_of_five _ (ranks_of_row_sublist strip r)) as H.
  rewrite length_fmap in H. rewrite <- H.
  unfold ranks_in_range. rewrite Forall_singleton. simpl.
  by rewrite Forall_fmap.
Qed.

(** X18. Run on a document written by the converter, either assignment
    script raises exactly when no row of the frame belongs to the course and
    semester; the error is then the one about [max] of an empty sequence,
    never the one about a missing key. *)
Theorem converter_document_raises_iff solve df course semester e :
  let doc := CSV_to_JSON.as_document
               (CSV_to_JSON.build_json_for_course strip df course semester) in
  (assignment.assign solve doc = inl e
   ↔ CSV_to_JSON.sub_frame df course semester = [] ∧ e = empty_max)
  ∧ (external_assign.assign solve doc = inl e
     ↔ CSV_to_JSON.sub_frame df course semester = [] ∧ e = empty_max).
Proof.
  intros doc.
  set (j := CSV_to_JSON.build_json_for_course strip df course semester) in *.
  assert (students doc = Some (CSV_to_JSON.student_of_row strip
                                 <$> CSV_to_JSON.sub_frame df course semester)) as Hs by done.
  destruct (CSV_to_JSON.sub_frame df course semester) as [|r rows] eqn:Hsub.
  - assert (assignment.assign solve doc = inl empty_max) as Hb
      by (unfold assignment.assign; rewrite Hs; reflexivity).
    assert (external_assign.assign solve doc = inl empty_max) as Hx
      by (unfold external_assign.assign; rewrite Hs; reflexivity).
    rewrite Hb, Hx. split; (split; [by intros [= <-] | by intros [_ ->]]).
  - split; (split; [|by intros [? _]]); intros He; exfalso.
    + destruct (base_assign_returns solve doc _ _ _ Hs eq_refl eq_refl) as [out Hout];
        [done | congruence].
    + destruct (ext_assign_returns solve doc _ _ _ Hs eq_refl eq_refl) as [out Hout];
        [done | congruence].
Qed.

Lemma converter_options df course semester :
  options (CSV_to_JSON.as_document (CSV_to_JSON.build_json_for_course strip df course semester))
  = Some {| minTeamSize := Some 4; maxSectionsPerTeam := Some 2 |}.
Proof. reflexivity. Qed.

Lemma converter_choice_is_listed df course semester sid c :
  let j := CSV_to_JSON.build_json_for_course strip df course semester in
  sid ∈ student_ids (CSV_to_JSON.j_students j) →
  c ∈ student_choices (CSV_to_JSON.j_students j) !!! sid →
  CSV_to_JSON.j_capacities j !! proj_of c = Some 24.
Proof.
  intros j Hsid Hc.
  destruct (student_choices_of _ sid Hsid) as (s & Hs & _ & E). rewrite E in Hc.
  simpl in Hs. apply list_elem_of_fmap in Hs as (r & -> & Hr).
  unfold choice_tuples in Hc. simpl in Hc.
  apply list_elem_of_fmap in Hc as (ch & -> & Hch).
  unfold j. cbn [CSV_to_JSON.build_json_for_course CSV_to_JSON.j_capacities].
  rewrite lookup_gset_to_gmap, option_guard_True; [done|].
  apply elem_of_projects_of. by exists r, ch.
Qed.

(** X19. For a document written by the converter ([minTeamSize] 4, every
    ranked project listed with capacity 24), every feasible point of the
    model of either script gives each project either no student at all or
    between 4 and 24 students. *)
Theorem converter_teams_have_4_to_24 df course semester m v p :
  let j := CSV_to_JSON.build_json_for_course strip df course semester in
  let opts := {| minTeamSize := Some 4; maxSectionsPerTeam := Some 2 |} in
  assignment.build_model (CSV_to_JSON.j_students j) (CSV_to_JSON.j_capacities j) opts = inr m
  ∨ external_assign.build_model (CSV_to_JSON.j_students j) (CSV_to_JSON.j_capacities j) opts
    = inr m →
  feasible m v →
  let n := students_on v (student_ids (CSV_to_JSON.j_students j))
             (student_choices (CSV_to_JSON.j_students j)) p in
  n = 0%nat ∨ (4 ≤ n ≤ 24)%nat.
Proof.
  intros j opts Hm Hf n.
  set (ids := student_ids (CSV_to_JSON.j_students j)) in *.
  set (sc := student_choices (CSV_to_JSON.j_students j)) in *.
  set (caps := CSV_to_JSON.j_capacities j) in *.
  assert (base_feasible ids sc caps 4 v) as Hbf.
  { destruct Hm as [Hm|Hm];
      [by eapply (base_feasible_of_base _ _ opts) | by eapply (base_feasible_of_ext _ _ opts)]. }
  destruct (caps !! p) as [c|] eqn:Hc.
  - assert (c = 24) as ->.
    { unfold caps, j in Hc.
      cbn [CSV_to_JSON.build_json_for_course CSV_to_JSON.j_capacities] in Hc.
      rewrite lookup_gset_to_gmap in Hc.
      destruct (decide (p ∈ CSV_to_JSON.projects_of strip
                              (CSV_to_JSON.sub_frame df course semester))) as [Hin|Hnin].
      - rewrite option_guard_True in Hc by done. by injection Hc as <-.
      - by rewrite option_guard_False in Hc. }
    assert (p ∈ projects caps) as Hp by (apply elem_of_projects; by eexists).
    pose proof (students_on_le_capacity ids sc caps 4 v p 24 Hbf Hc) as Hle.
    pose proof (students_on_is_load ids sc caps 4 v p Hbf) as Hn. fold n in Hn, Hle.
    pose proof (capacity_ceiling _ _ _ _ v Hbf p Hp) as Hcap.
    pose proof (occupancy_floor _ _ _ _ v Hbf p Hp) as Hfl.
    rewrite <- eval_project_load, <- Hn in Hcap, Hfl.
    rewrite (lookup_total_correct _ _ _ Hc) in Hcap, Hfl.
    change (min_capacity 4 24) with 4 in Hfl.
    destruct (y_binary _ _ _ _ v Hbf p Hp) as [Hy|Hy]; rewrite Hy in *; lia.
  - left. unfold n, students_on.
    destruct (filter _ ids) as [|sid l] eqn:E; [done|]. exfalso.
    assert (sid ∈ filter (λ sid, (sid, p) ∈ x_keys ids sc ∧ v (x_var sid p) = 1) ids) as Hin
      by (rewrite E; apply list_elem_of_here).
    apply list_elem_of_filter in Hin as [[Hk _] Hsid].
    apply elem_of_x_keys in Hk as (_ & c & Hcin & <-).
    pose proof (converter_choice_is_listed df course semester sid c Hsid Hcin) as Hl.
    fold j caps in Hl. congruence.
Qed.
End Converter_and_scripts.

Lemma converter_teams_have_4_to_24_witness :
  let j := CSV_to_JSON.build_json_for_course CSV_to_JSON.strip_blank CSV_to_JSON.frame
             "EC463" "Fall 2025" in
  let n := students_on More_examples.nobody (student_ids (CSV_to_JSON.j_students j))
             (student_choices (CSV_to_JSON.j_students j)) "Drone" in
  n = 0%nat ∨ (4 ≤ n ≤ 24)%nat.
Proof.
  refine (converter_teams_have_4_to_24 CSV_to_JSON.strip_blank CSV_to_JSON.frame
            "EC463" "Fall 2025" _ More_examples.nobody "Drone" (or_intror eq_refl) _).
  apply (bool_decide_unpack _). vm_compute. reflexivity.
Defined.
